(** * checkpointed-steps: the step contract of four pipeline steps

    A shallow embedding of

      - [checkpointed_steps/misc/func.py]            (the function-to-step adapter),
      - [checkpointed_steps/processing/text/flatten.py],
      - [checkpointed_steps/encoders/text/dict2array.py],
      - [checkpointed_steps/encoders/text/word2vec.py],

    followed by the properties of the step contract: checkpoint validity,
    determinism, persistence round trips, identity fingerprints and the use
    of configuration keys.

    Python objects are modelled by the small universe [pyobj]; a call either
    returns or raises, which is the type [outcome]. *)

From stdpp Require Import gmap strings list.
From Stdlib Require Import ZArith Floats Ascii.

Local Open Scope Z_scope.
Local Open Scope string_scope.
Local Open Scope list_scope.

(** * Python values, exceptions and outcomes *)

Module Py.

(** The exceptions the four files raise or let escape. *)
Inductive exn : Type :=
| KeyError (arg : string)
| ValueError (msg : string)
| TypeError
| OverflowError
| FileNotFoundError (path : string)
| ConfigurationError (key : string).

(** The result of a call: a value, or a raised exception. *)
Inductive outcome (A : Type) : Type :=
| Return (a : A)
| Raise (e : exn).
Arguments Return {A} a.
Arguments Raise {A} e.

Definition bind {A B} (m : outcome A) (k : A -> outcome B) : outcome B :=
  match m with
  | Return a => k a
  | Raise e => Raise e
  end.

Definition returns {A} (m : outcome A) : Prop := exists a, m = Return a.

(** Atomic Python values: [None], booleans, integers, strings, and class
    objects (named by their qualified name). *)
Inductive pyval : Type :=
| PNone
| PBool (b : bool)
| PInt (z : Z)
| PStr (s : string)
| PClass (name : string).

(** Python objects as far as the steps handle them: atoms, lists of atoms
    and string-keyed dicts of atoms. *)
Inductive pyobj : Type :=
| Atom (v : pyval)
| PList (items : list pyval)
| PDict (entries : gmap string pyval).

(** [a == b].  Booleans are integers in Python ([True == 1]); values of
    unrelated types are unequal. *)
Definition py_eq (a b : pyval) : bool :=
  match a, b with
  | PNone, PNone => true
  | PBool x, PBool y => Bool.eqb x y
  | PBool x, PInt y => Z.eqb (Z.b2z x) y
  | PInt x, PBool y => Z.eqb x (Z.b2z y)
  | PInt x, PInt y => Z.eqb x y
  | PStr x, PStr y => String.eqb x y
  | PClass x, PClass y => String.eqb x y
  | _, _ => false
  end.
Arguments py_eq : simpl never.

(** [bool(o)]: the truth value of an object. *)
Definition truthy (o : pyobj) : bool :=
  match o with
  | Atom PNone => false
  | Atom (PBool b) => b
  | Atom (PInt z) => negb (Z.eqb z 0)
  | Atom (PStr s) => negb (String.eqb s EmptyString)
  | Atom (PClass _) => true
  | PList items => negb (Nat.eqb (length items) 0)
  | PDict entries => negb (Nat.eqb (size entries) 0)
  end.

(** [o[key]] for a string key: a dict looks the key up and raises
    [KeyError(key)] when it is missing; no other object of the universe can
    be indexed by a string ([TypeError]). *)
Definition getitem (o : pyobj) (key : string) : outcome pyval :=
  match o with
  | PDict entries =>
      match entries !! key with
      | Some v => Return v
      | None => Raise (KeyError key)
      end
  | _ => Raise TypeError
  end.

End Py.

Import Py.

#[export] Instance outcome_ret : MRet outcome := fun A a => Return a.
#[export] Instance outcome_bind : MBind outcome := fun A B k m => Py.bind m k.

(** The configuration of a step instance ([self.config]): resolved values by
    dotted key. *)
Abbreviation config := (gmap string pyval).

(** What a Python function can read and change besides its arguments: the
    mutable state of the process (module globals, counters, caches), by
    name. *)
Abbreviation world := (gmap string pyval).

(** * Files, [pickle] and [numpy] persistence *)

(** A file system: the regular files by path, each with its content.  The
    location a step is handed is one the orchestrator prepared, so opening a
    file for writing succeeds and creates or truncates it. *)
Abbreviation filesystem := (gmap string (list Byte.byte)).

(** The serialization a library writes to a file and reads back:
    [pickle.dump]/[pickle.load] at each pickled result type, and
    [numpy.save]/[numpy.load] on arrays. *)
Class Serializer (A : Type) : Type := {
  dumps : A -> list Byte.byte;
  loads : list Byte.byte -> outcome A
}.

(** The library's own guarantee: reading back what was written gives the
    object. *)
Class Lossless (A : Type) `{Serializer A} : Prop :=
  loads_dumps : forall a : A, loads (dumps a) = Return a.

Module Os.

(** [with open(path, 'wb') as file: write(content)]. *)
Definition write_file (path : string) (content : list Byte.byte)
    (fs : filesystem) : outcome filesystem :=
  Return (<[path := content]> fs).

(** [with open(path, 'rb') as file: read()]. *)
Definition read_file (path : string) (fs : filesystem)
  : outcome (list Byte.byte) :=
  match fs !! path with
  | Some content => Return content
  | None => Raise (FileNotFoundError path)
  end.

(** [s.startswith(prefix)] and [s.endswith(suffix)]. *)
Definition startswith (s prefix : string) : bool :=
  String.prefix prefix s.

Definition endswith (s suffix : string) : bool :=
  let n := String.length s in
  let m := String.length suffix in
  if (m <=? n)%nat
  then String.eqb (String.substring (n - m) m s) suffix
  else false.

(** [os.path.join(a, b)] (posixpath): an absolute [b] replaces [a]; a
    separator is added unless [a] is empty or ends with one. *)
Definition path_join (a b : string) : string :=
  if startswith b "/" then b
  else if String.eqb a EmptyString || endswith a "/" then a +:+ b
  else a +:+ "/" +:+ b.

End Os.

Module Pickle.

(** [pickle.dump(result, file)] on a file opened at [path] for writing. *)
Definition dump_to `{Serializer A} (path : string) (result : A)
    (fs : filesystem) : outcome filesystem :=
  Os.write_file path (dumps result) fs.

(** [pickle.load(file)] on a file opened at [path] for reading. *)
Definition load_from `{Serializer A} (path : string) (fs : filesystem)
  : outcome A :=
  content ← Os.read_file path fs;
  loads content.

End Pickle.

Module Numpy.

(** A one-dimensional [float64] array, and a two-dimensional one by rows. *)
Definition vector : Type := list float.
Definition matrix : Type := list (list float).

(** [numpy.save(file, arr)] with [file] a [str]: as numpy documents it, a
    [.npy] extension is appended to the file name if it does not already
    have one
    ([if not file.endswith('.npy'): file = file + '.npy'] in
    [numpy/lib/npyio.py]). *)
Definition save_target (file : string) : string :=
  if Os.endswith file ".npy" then file else file +:+ ".npy".

Definition save `{Serializer matrix} (file : string) (arr : matrix)
    (fs : filesystem) : outcome filesystem :=
  Os.write_file (save_target file) (dumps arr) fs.

(** [numpy.load(file)] opens [file] as it is named. *)
Definition load `{Serializer matrix} (file : string) (fs : filesystem)
  : outcome matrix :=
  content ← Os.read_file file fs;
  loads content.

Definition need_one_array : string :=
  "need at least one array to concatenate".
Definition dimensions_differ : string :=
  "all the input array dimensions except for the concatenation axis must match exactly".

(** Whether all the numbers of a list are the same. *)
Definition all_equal (ns : list nat) : bool :=
  match ns with
  | [] => true
  | n :: rest => forallb (Nat.eqb n) rest
  end.

(** [numpy.vstack(tup)] on a list of one-dimensional arrays: each becomes a
    row; the list must not be empty and the rows must have one length.  An
    entry that is [None] is not an array of that length. *)
Definition vstack_vectors (tup : list (option vector)) : outcome matrix :=
  match tup with
  | [] => Raise (ValueError need_one_array)
  | _ =>
      match mapM id tup with
      | Some rows =>
          if all_equal (length <$> rows) then Return rows
          else Raise (ValueError dimensions_differ)
      | None => Raise (ValueError dimensions_differ)
      end
  end.

(** The number of columns of a two-dimensional array. *)
Definition columns (m : matrix) : nat :=
  match m with
  | [] => 0
  | row :: _ => length row
  end.

(** [numpy.vstack(tup)] on a list of two-dimensional arrays: their rows one
    after the other; the list must not be empty and the arrays must have
    one number of columns. *)
Definition vstack (tup : list matrix) : outcome matrix :=
  match tup with
  | [] => Raise (ValueError need_one_array)
  | _ =>
      if all_equal (columns <$> tup) then Return (concat tup)
      else Raise (ValueError dimensions_differ)
  end.

End Numpy.

(** * The builtin [hash] on strings *)

(** [hash(s)] of a [str] as CPython 3.11 and later compute it (64-bit
    build): SipHash-1-3 of the characters, keyed by the 16 first bytes of a
    secret the interpreter process draws when it starts.  The texts are
    those of code points below 256, which CPython stores one byte a
    character. *)
Module CPython.

Definition mask64 (x : Z) : Z := x mod 2 ^ 64.

Definition rotate (x b : Z) : Z :=
  mask64 (Z.lor (Z.shiftl x b) (Z.shiftr x (64 - b))).

Record sipstate : Type := { v0 : Z; v1 : Z; v2 : Z; v3 : Z }.

(** [SINGLE_ROUND] of [Python/pyhash.c]. *)
Definition single_round (s : sipstate) : sipstate :=
  let a := mask64 (v0 s + v1 s) in
  let c := mask64 (v2 s + v3 s) in
  let b := Z.lxor (rotate (v1 s) 13) a in
  let d := Z.lxor (rotate (v3 s) 16) c in
  let a := rotate a 32 in
  let c := mask64 (c + b) in
  let a := mask64 (a + d) in
  let b := Z.lxor (rotate b 17) c in
  let d := Z.lxor (rotate d 21) a in
  let c := rotate c 32 in
  {| v0 := a; v1 := b; v2 := c; v3 := d |}.

(** A little-endian word. *)
Fixpoint le_bytes (bytes : list Z) : Z :=
  match bytes with
  | [] => 0
  | b :: rest => b + 256 * le_bytes rest
  end.

(** One message word: [v3 ^= m; SINGLE_ROUND; v0 ^= m]. *)
Definition absorb (m : Z) (s : sipstate) : sipstate :=
  let s := {| v0 := v0 s; v1 := v1 s; v2 := v2 s; v3 := Z.lxor (v3 s) m |} in
  let s := single_round s in
  {| v0 := Z.lxor (v0 s) m; v1 := v1 s; v2 := v2 s; v3 := v3 s |}.

(** The loop over the full words of the input; it gives the state and the
    bytes left over (fewer than eight). *)
Fixpoint blocks (fuel : nat) (bytes : list Z) (s : sipstate)
  : sipstate * list Z :=
  match fuel with
  | O => (s, bytes)
  | S fuel' =>
      if (8 <=? length bytes)%nat
      then blocks fuel' (drop 8 bytes) (absorb (le_bytes (take 8 bytes)) s)
      else (s, bytes)
  end.

(** [siphash13(k0, k1, src, src_sz)]. *)
Definition siphash13 (k0 k1 : Z) (bytes : list Z) : Z :=
  let b := mask64 (Z.shiftl (Z.of_nat (length bytes)) 56) in
  let s := {| v0 := Z.lxor k0 0x736f6d6570736575;
              v1 := Z.lxor k1 0x646f72616e646f6d;
              v2 := Z.lxor k0 0x6c7967656e657261;
              v3 := Z.lxor k1 0x7465646279746573 |} in
  let '(s, rest) := blocks (length bytes) bytes s in
  let b := Z.lor b (le_bytes rest) in
  let s := absorb b s in
  let s := {| v0 := v0 s; v1 := v1 s; v2 := Z.lxor (v2 s) 0xff; v3 := v3 s |} in
  let s := single_round (single_round (single_round s)) in
  Z.lxor (Z.lxor (v0 s) (v1 s)) (Z.lxor (v2 s) (v3 s)).

(** The secret of a process started with [PYTHONHASHSEED=seed]: 24 bytes,
    all zero for the seed 0 and drawn from a linear congruential generator
    for the others ([lcg_urandom] of [Python/bootstrap_hash.c]).  Without
    the variable the bytes come from the operating system's random source,
    anew for every process. *)
Fixpoint lcg_urandom (x : Z) (size : nat) : list Z :=
  match size with
  | O => []
  | S size' =>
      let x := (x * 214013 + 2531011) mod 2 ^ 32 in
      Z.land (Z.shiftr x 16) 255 :: lcg_urandom x size'
  end.

Definition seeded (seed : Z) : list Z :=
  if Z.eqb seed 0 then replicate 24 0 else lcg_urandom seed 24.

(** A [Py_hash_t] is signed. *)
Definition signed64 (x : Z) : Z :=
  if Z.ltb x (2 ^ 63) then x else x - 2 ^ 64.

Fixpoint characters (s : string) : list Z :=
  match s with
  | EmptyString => []
  | String c rest => Z.of_N (N_of_ascii c) :: characters rest
  end.

(** [_Py_HashBytes]: the empty input hashes to 0, and -1 is no hash
    value. *)
Definition hash_bytes (secret : list Z) (bytes : list Z) : Z :=
  match bytes with
  | [] => 0
  | _ =>
      let x := signed64 (siphash13 (le_bytes (take 8 secret))
                           (le_bytes (take 8 (drop 8 secret))) bytes) in
      if Z.eqb x (-1) then -2 else x
  end.

(** [hash(s)] in a process with the given secret. *)
Definition str_hash (secret : list Z) (s : string) : Z :=
  hash_bytes secret (characters s).

End CPython.

(** * misc/func.py: the function-to-step adapter *)

Module Func.

(** [pickle_loader(path)] and [pickle_saver(path, result)]. *)
Definition pickle_loader `{Serializer pyobj} (path : string)
    (fs : filesystem) : outcome pyobj :=
  Pickle.load_from path fs.

Definition pickle_saver `{Serializer pyobj} (path : string) (result : pyobj)
    (fs : filesystem) : outcome filesystem :=
  Pickle.dump_to path result fs.

(** An instance of a synthesized step class, as the code it is handed to can
    tell it apart: the name of its class and the configuration the
    orchestrator gave it ([self.config]). *)
Record instance : Type := {
  instance_class : string;
  instance_config : config
}.

(** A Python function object as the adapter sees it: its [__name__], the
    text [inspect.getsource] finds for it (none when the source file is
    unavailable) and what calling it gives.  [call f self inputs conf w] is
    the call [f(self, *inputs, conf=conf)] in the world [w]: the positional
    arguments are the instance followed by the inputs, and the call gives an
    outcome and the world it leaves behind. *)
Record pyfunction : Type := {
  __name__ : string;
  source_text : option string;
  call : instance -> list pyobj -> config -> world -> outcome pyobj * world
}.

(** [inspect.getsource(func)]; on a function it raises [OSError] when the
    source cannot be retrieved, which is the only exception [decorator]
    handles. *)
Inductive getsource_result : Type :=
| Source (text : string)
| OSError.

Definition inspect_getsource (func : pyfunction) : getsource_result :=
  match source_text func with
  | Some text => Source text
  | None => OSError
  end.

(** The class [type(...)] builds in [decorator]: the attributes
    [$_function], [$_save_function], ... of the synthesized subclass of
    [FunctionStepBase], and its name and marker bases. *)
Record FunctionStepWrapper : Type := {
  class_name : string;
  marker_bases : list string;
  _function : pyfunction;
  _save_function : string -> pyobj -> filesystem -> outcome filesystem;
  _load_function : string -> filesystem -> outcome pyobj;
  _pure : bool;
  _arguments : gmap string pyval;
  _constraints : list pyval;
  _supported_inputs : pyobj;
  _hash : option Z
}.

(** The keyword arguments of [pipeline_step]; [is_pure], [arguments] and
    [constraints] have the defaults [False], [None] and [None]. *)
Record pipeline_step_args : Type := {
  save_func : string -> pyobj -> filesystem -> outcome filesystem;
  load_func : string -> filesystem -> outcome pyobj;
  supported_input_steps : pyobj;
  marker_classes : list string;
  is_pure : bool;
  arguments : option (gmap string pyval);
  constraints : option (list pyval)
}.

Section Adapter.

(** The builtin [hash] on strings of the interpreter process that runs the
    decorator ([CPython.str_hash] with the secret of that process). *)
Variable py_hash : string -> Z.

(** The decorator [pipeline_step] returns, applied to [func]. *)
Definition decorator (args : pipeline_step_args) (func : pyfunction)
  : FunctionStepWrapper :=
  let source :=
    match inspect_getsource func with
    | Source text => Some text
    | OSError => None
    end in
  let hash_value :=
    match source with
    | Some text => Some (py_hash text)
    | None => None
    end in
  {| class_name := "FunctionStepWrapper_" +:+ __name__ func;
     marker_bases := "FunctionStepBase" :: marker_classes args;
     _function := func;
     _save_function := save_func args;
     _load_function := load_func args;
     _pure := is_pure args;
     _arguments := default ∅ (arguments args);
     _constraints := default [] (constraints args);
     _supported_inputs := supported_input_steps args;
     _hash := hash_value |}.

Definition pipeline_step := decorator.

End Adapter.

(** ** The methods of [FunctionStepBase], on a synthesized class *)

(** [supports_step_as_input(cls, step)]; [step] is the candidate class. *)
Definition supports_step_as_input (cls : FunctionStepWrapper) (step : pyval)
  : pyobj :=
  _supported_inputs cls.

(** [execute(self, *inputs)] on an instance [self] of the class [cls].
    [getattr(self, '$_function')] finds the function as a class attribute
    through the instance, so it is bound to [self]: the wrapped function is
    called with [self] before the inputs, and with [conf=self.config]. *)
Definition execute (cls : FunctionStepWrapper) (self : instance)
    (inputs : list pyobj) (w : world) : outcome pyobj * world :=
  let function := call (_function cls) self in
  function inputs (instance_config self) w.

Definition save_result (cls : FunctionStepWrapper) (path : string)
    (result : pyobj) (fs : filesystem) : outcome filesystem :=
  let function := _save_function cls in
  function path result fs.

Definition load_result (cls : FunctionStepWrapper) (path : string)
    (fs : filesystem) : outcome pyobj :=
  let function := _load_function cls in
  function path fs.

Definition is_deterministic (cls : FunctionStepWrapper) : bool :=
  _pure cls.

(** The value of [$_hash] as a Python object. *)
Definition hash_object (h : option Z) : pyval :=
  match h with
  | Some z => PInt z
  | None => PNone
  end.

Definition get_checkpoint_metadata (cls : FunctionStepWrapper) : pyobj :=
  PDict {[ "function_hash" := hash_object (_hash cls) ]}.

(** [h is not None and h == metadata['function_hash']]: the right operand
    of [and] is evaluated only when [h] is not [None]. *)
Definition checkpoint_is_valid (cls : FunctionStepWrapper) (metadata : pyobj)
  : outcome bool :=
  let h := _hash cls in
  match h with
  | None => Return false
  | Some z =>
      stored ← getitem metadata "function_hash";
      mret (py_eq (PInt z) stored)
  end.

Definition get_arguments (cls : FunctionStepWrapper) : gmap string pyval :=
  _arguments cls.

Definition get_constraints (cls : FunctionStepWrapper) : list pyval :=
  _constraints cls.

End Func.

(** * processing/text/flatten.py *)

Module Flatten.

(** A tokenized document: a list of token lists (one per sentence or
    paragraph); a flattened document: its tokens. *)
Definition document : Type := list (list string).
Definition flat_document : Type := list string.

(** An instance of the step holds the configuration it was built with. *)
Record Flattened : Type := { self_config : config }.

Definition get_input_labels : list string := ["documents"].

(** [execute(self, **inputs)]: the keyword arguments by label. *)
Definition execute (self : Flattened) (inputs : gmap string (list document))
  : outcome (list flat_document) :=
  match inputs !! "documents" with
  | None => Raise (KeyError "documents")
  | Some documents =>
      Return ((fun document => concat document) <$> documents)
  end.

Definition save_result `{Serializer (list flat_document)} (path : string)
    (result : list flat_document) (fs : filesystem) : outcome filesystem :=
  Pickle.dump_to (Os.path_join path "main.pickle") result fs.

Definition load_result `{Serializer (list flat_document)} (path : string)
    (fs : filesystem) : outcome (list flat_document) :=
  Pickle.load_from (Os.path_join path "main.pickle") fs.

Definition is_deterministic : bool := true.

Definition get_checkpoint_metadata (self : Flattened) : pyobj := PDict ∅.

Definition checkpoint_is_valid (self : Flattened) (metadata : pyobj)
  : outcome bool :=
  Return true.

Definition get_arguments : gmap string pyval := ∅.

Definition get_constraints : list pyval := [].

End Flatten.

(** * encoders/text/dict2array.py *)

Module Scipy.

(** The element type [numpy.array] gives a list of Python integers, on a
    platform whose C [long] has 64 bits: [int64] when every value fits it,
    [uint64] when every value lies in [2^63, 2^64), [float64] when values of
    both ranges are mixed (and for the empty list), and [object] as soon as
    one value fits neither. *)
Inductive dtype : Type :=
| Int64
| UInt64
| Float64
| Object.

#[global] Instance dtype_eq_dec : EqDecision dtype.
Proof. solve_decision. Defined.

Definition int_dtype (value : Z) : dtype :=
  if Z.leb (- 2 ^ 63) value && Z.ltb value (2 ^ 63) then Int64
  else if Z.leb (2 ^ 63) value && Z.ltb value (2 ^ 64) then UInt64
  else Object.

Definition promote (a b : dtype) : dtype :=
  match a, b with
  | Object, _ | _, Object => Object
  | Int64, Int64 => Int64
  | UInt64, UInt64 => UInt64
  | _, _ => Float64
  end.

Definition array_dtype (values : list Z) : dtype :=
  match values with
  | [] => Float64
  | value :: rest =>
      foldl (fun d v => promote d (int_dtype v)) (int_dtype value) rest
  end.

(** [numpy.max] of a non-empty list. *)
Definition maximum (values : list Z) : Z :=
  match values with
  | [] => 0
  | value :: rest => foldl Z.max value rest
  end.

(** What a built array stores: for an integer element type the value at each
    stored position; for [float64] the stored positions only (the values are
    sums of roundings, which this model does not follow). *)
Inductive contents : Type :=
| Integers (entries : gmap (Z * Z) Z)
| Floats (positions : gset (Z * Z)).

(** A sparse array in canonical form, as [csr_array] builds it: the shape,
    the element type and the stored entries by (row, column).  Canonical form
    has one entry per position and orders a row by column, which the map
    does too. *)
Record csr_array : Type := {
  shape : Z * Z;
  dtype_of : dtype;
  stored : contents
}.

(** The positions an array stores an entry at. *)
Definition positions (array : csr_array) : gset (Z * Z) :=
  match stored array with
  | Integers entries => dom entries
  | Floats positions => positions
  end.

(** [array[row, column]] of an array with integer elements; positions
    without an entry read as [None] here. *)
Definition entry (array : csr_array) (position : Z * Z) : option Z :=
  match stored array with
  | Integers entries => entries !! position
  | Floats _ => None
  end.

Definition zero_sized : string :=
  "cannot infer dimensions from zero sized index arrays".
Definition negative_shape : string := "'shape' elements cannot be negative".
Definition object_dtype : string :=
  "object dtype is not supported by sparse matrices".
Definition length_mismatch : string :=
  "row, column, and data array must all be the same length".
Definition negative_row : string := "negative row index found".
Definition negative_column : string := "negative column index found".

(** Arithmetic of the element type: 64-bit integers wrap around. *)
Definition wrap (d : dtype) (value : Z) : Z :=
  match d with
  | UInt64 => value mod 2 ^ 64
  | _ => (value + 2 ^ 63) mod 2 ^ 64 - 2 ^ 63
  end.

(** Entries with the same (row, column) are summed. *)
Definition add_entry (d : dtype) (entries : gmap (Z * Z) Z)
    (item : Z * (Z * Z)) : gmap (Z * Z) Z :=
  <[ item.2 := wrap d (default 0 (entries !! item.2) + item.1) ]> entries.

Definition sum_duplicates (d : dtype) (items : list (Z * (Z * Z)))
  : gmap (Z * Z) Z :=
  foldl (add_entry d) ∅ items.

Definition check (ok : bool) (e : exn) : outcome unit :=
  if ok then Return tt else Raise e.

(** [operator.index(numpy.max(index)) + 1]: the extent along one axis.  A
    [float64] maximum is no index. *)
Definition extent (index : list Z) : outcome Z :=
  match array_dtype index with
  | Float64 => Raise TypeError
  | _ => Return (maximum index + 1)
  end.

(** [scipy.sparse.csr_array((data, (row_ind, col_ind)))] with no [shape], on
    lists of Python integers, in the order the constructor proceeds:
    - empty index arrays are refused ([raise ValueError('cannot infer
      dimensions from zero sized index arrays')] in [scipy/sparse/_coo.py]);
    - the shape is one more than the largest row and column index, and
      neither extent may be negative;
    - the indices are stored as [int32] or [int64], so an index array that
      is not [int64], or an extent beyond [int64], overflows;
    - [data] must have a supported element type ([object] is none);
    - the three arrays must have one length and no index may be negative;
    - the array is brought to canonical form, which sums the entries of one
      position. *)
Definition make_csr_array (data row_ind col_ind : list Z)
  : outcome csr_array :=
  match row_ind, col_ind with
  | [], _ | _, [] => Raise (ValueError zero_sized)
  | _, _ =>
      M ← extent row_ind;
      N ← extent col_ind;
      _ ← check (Z.leb 0 M && Z.leb 0 N) (ValueError negative_shape);
      _ ← check (bool_decide (array_dtype row_ind = Int64)
                 && bool_decide (array_dtype col_ind = Int64)
                 && Z.ltb (Z.max M N) (2 ^ 63)) OverflowError;
      _ ← check (negb (bool_decide (array_dtype data = Object)))
            (ValueError object_dtype);
      _ ← check (bool_decide (length row_ind = length data)
                 && bool_decide (length col_ind = length data))
            (ValueError length_mismatch);
      _ ← check (forallb (Z.leb 0) row_ind) (ValueError negative_row);
      _ ← check (forallb (Z.leb 0) col_ind) (ValueError negative_column);
      let d := array_dtype data in
      Return {| shape := (M, N);
                dtype_of := d;
                stored :=
                  match d with
                  | Float64 => Floats (list_to_set (zip row_ind col_ind))
                  | _ => Integers
                           (sum_duplicates d (zip data (zip row_ind col_ind)))
                  end |}
  end.

End Scipy.

Module Dict2Array.

(** A document as a dict from token to count, in insertion order, which is
    the order [document.items()] follows. *)
Definition document : Type := list (string * Z).

(** The three lists [execute] fills: [data], [row_ind], [col_ind]. *)
Record triplets : Type := {
  data : list Z;
  row_ind : list nat;
  col_ind : list Z
}.

Definition no_entry (token : string) : string :=
  "Dictionary has no entry for word: " +:+ token.

(** The inner loop: [for token, col in document.items()]. *)
Fixpoint scan_document (word_to_index : gmap string Z) (row : nat)
    (items : document) (acc : triplets) : outcome triplets :=
  match items with
  | [] => Return acc
  | (token, col) :: rest =>
      let data := data acc ++ [col] in
      let row_ind := row_ind acc ++ [row] in
      match word_to_index !! token with
      | Some index =>
          scan_document word_to_index row rest
            {| data := data; row_ind := row_ind;
               col_ind := col_ind acc ++ [index] |}
      | None => Raise (ValueError (no_entry token))
      end
  end.

(** The outer loop: [for row, document in enumerate(documents)]. *)
Fixpoint scan_documents (word_to_index : gmap string Z) (row : nat)
    (documents : list document) (acc : triplets) : outcome triplets :=
  match documents with
  | [] => Return acc
  | document :: rest =>
      acc' ← scan_document word_to_index row document acc;
      scan_documents word_to_index (S row) rest acc'
  end.

(** [execute(self, **inputs)], with [inputs['word-to-index-dictionary']]
    (tokens to integer indices) and [inputs['documents']] as the
    orchestrator binds them. *)
Definition execute (word_to_index : gmap string Z)
    (documents : list document) : outcome Scipy.csr_array :=
  filled ← scan_documents word_to_index 0 documents
             {| data := []; row_ind := []; col_ind := [] |};
  Scipy.make_csr_array (data filled) (Z.of_nat <$> row_ind filled)
    (col_ind filled).

Definition save_result `{Serializer Scipy.csr_array} (path : string)
    (result : Scipy.csr_array) (fs : filesystem) : outcome filesystem :=
  Pickle.dump_to path result fs.

Definition load_result `{Serializer Scipy.csr_array} (path : string)
    (fs : filesystem) : outcome Scipy.csr_array :=
  Pickle.load_from path fs.

Definition is_deterministic : bool := true.

Definition get_checkpoint_metadata : pyobj := PDict ∅.

Definition checkpoint_is_valid (metadata : pyobj) : outcome bool :=
  Return true.

Definition get_arguments : gmap string pyval := ∅.

Definition get_constraints : list pyval := [].

End Dict2Array.

(** * encoders/text/word2vec.py *)

(** Execution that reads the configuration: the state is the log of the keys
    consulted so far, most recent first. *)
Module Conf.

Definition Exec (A : Type) : Type := list string -> list string * outcome A.

#[export] Instance exec_ret : MRet Exec := fun A a log => (log, Return a).

#[export] Instance exec_bind : MBind Exec := fun A B k m log =>
  match m log with
  | (log', Return a) => k a log'
  | (log', Raise e) => (log', Raise e)
  end.

Definition lift {A} (m : outcome A) : Exec A := fun log => (log, m).

Definition raise {A} (e : exn) : Exec A := lift (Raise e).

(** Modelled from the spec: [Config.get_casted(key, str)] of the core
    package, whose source is not part of these files.  The accessor gives
    the resolved value at a dotted key and fails with a typed error if the
    key is absent or of the wrong declared type. *)
Definition get_casted_str (conf : config) (key : string) : Exec string :=
  fun log =>
    (key :: log,
     match conf !! key with
     | Some (PStr s) => Return s
     | _ => Raise (ConfigurationError key)
     end).

(** A run from an empty log: the keys consulted, and the outcome. *)
Definition consulted {A} (m : Exec A) : list string := (m []).1.
Definition result {A} (m : Exec A) : outcome A := (m []).2.

End Conf.

(** The argument schema of [checkpointed.arg_spec], as far as
    [get_arguments] uses it. *)
Module ArgSpec.

Inductive term : Type :=
| ArgumentRef (name : string)
| Constant (value : pyval).

Inductive constraint : Type :=
| Equal (lhs rhs : term).

Inductive argument : Type :=
| EnumArgument (name description : string) (options : list string)
| StringArgument (name description : string) (enabled_if : option constraint).

(** Modelled from the spec: the evaluation of an enablement constraint, a
    boolean predicate over other arguments' resolved values; the value of
    the argument [name] is the configuration's at [params.name]. *)
Definition term_value (conf : config) (t : term) : option pyval :=
  match t with
  | ArgumentRef name => conf !! ("params." +:+ name)
  | Constant value => Some value
  end.

Definition holds (conf : config) (c : constraint) : bool :=
  match c with
  | Equal lhs rhs =>
      match term_value conf lhs, term_value conf rhs with
      | Some x, Some y => py_eq x y
      | _, _ => false
      end
  end.

Definition enabled (conf : config) (a : argument) : bool :=
  match a with
  | EnumArgument _ _ _ => true
  | StringArgument _ _ None => true
  | StringArgument _ _ (Some c) => holds conf c
  end.

End ArgSpec.

Module Word2Vec.

Import Conf ArgSpec.

(** The double quote character of the two messages (code 34). *)
Definition dquote : string := String (Ascii.ascii_of_nat 34) EmptyString.

Definition replacement_not_found (key : string) : string :=
  "Replacement word " +:+ dquote +:+ key +:+ dquote
    +:+ " not found in word embedding".

Definition word_not_found (word : string) : string :=
  "Word " +:+ dquote +:+ word +:+ dquote +:+ " not found in word embedding".

Definition policy_key : string := "params.unknown-word-policy".
Definition replacement_key : string := "params.unknown-word-replacement".

(** The inner loop, [for word in document], appending to
    [document_vectors]; [vectors[word]] raises [KeyError] for an unknown
    word, and the handler reads the policy again. *)
Fixpoint encode_document (conf : config) (vectors : gmap string Numpy.vector)
    (replacement_vector : option Numpy.vector) (document : list string)
    (document_vectors : list (option Numpy.vector))
  : Exec (list (option Numpy.vector)) :=
  match document with
  | [] => mret document_vectors
  | word :: rest =>
      match vectors !! word with
      | Some v =>
          encode_document conf vectors replacement_vector rest
            (document_vectors ++ [Some v])
      | None =>
          policy ← get_casted_str conf policy_key;
          if String.eqb policy "ignore" then
            encode_document conf vectors replacement_vector rest
              document_vectors
          else if String.eqb policy "error" then
            raise (KeyError (word_not_found word))
          else if String.eqb policy "replace" then
            encode_document conf vectors replacement_vector rest
              (document_vectors ++ [replacement_vector])
          else
            encode_document conf vectors replacement_vector rest
              document_vectors
      end
  end.

(** The outer loop, [for document in documents], appending to [result]. *)
Fixpoint encode_documents (conf : config) (vectors : gmap string Numpy.vector)
    (replacement_vector : option Numpy.vector)
    (documents : list (list string)) (result : list Numpy.matrix)
  : Exec (list Numpy.matrix) :=
  match documents with
  | [] => mret result
  | document :: rest =>
      document_vectors ←
        encode_document conf vectors replacement_vector document [];
      stacked ← lift (Numpy.vstack_vectors document_vectors);
      encode_documents conf vectors replacement_vector rest
        (result ++ [stacked])
  end.

(** [execute(self, *inputs)] with [vectors, documents = inputs] and [conf]
    being [self.config]. *)
Definition execute (conf : config) (vectors : gmap string Numpy.vector)
    (documents : list (list string)) : Exec Numpy.matrix :=
  policy ← get_casted_str conf policy_key;
  replacement_vector ←
    (if String.eqb policy "replace" then
       key ← get_casted_str conf replacement_key;
       match vectors !! key with
       | Some v => mret (Some v)
       | None => raise (ValueError (replacement_not_found key))
       end
     else mret None);
  result ← encode_documents conf vectors replacement_vector documents [];
  lift (Numpy.vstack result).

Definition save_result `{Serializer Numpy.matrix} (path : string)
    (result : Numpy.matrix) (fs : filesystem) : outcome filesystem :=
  Numpy.save path result fs.

Definition load_result `{Serializer Numpy.matrix} (path : string)
    (fs : filesystem) : outcome Numpy.matrix :=
  Numpy.load path fs.

Definition unknown_word_replacement : argument :=
  StringArgument "unknown-word-replacement"
    ("Replacement for words not contained in the given word embedding. "
       +:+ "Only used if unknown-word-policy == "
       +:+ dquote +:+ "replace" +:+ dquote)
    (Some (Equal (ArgumentRef "unknown-word-policy")
                 (Constant (PStr "replace")))).

Definition get_arguments : list (string * argument) :=
  [ ("unknown-word-policy",
     EnumArgument "unknown-word-policy"
       "Policy on how to handle words not contained in the given word embedding."
       ["ignore"; "error"; "replace"]);
    ("unknown-word-replacement", unknown_word_replacement) ].

Definition get_constraints : list constraint := [].

Definition is_deterministic : bool := true.

Definition get_checkpoint_metadata : pyobj := PDict ∅.

Definition checkpoint_is_valid (metadata : pyobj) : outcome bool :=
  Return true.

End Word2Vec.

(** * The steps of the four files under the step contract *)

Inductive step : Type :=
| FlattenedStep (self : Flatten.Flattened)
| DictToSparseArrayStep
| Word2VecEncoderStep
| FunctionStep (cls : Func.FunctionStepWrapper).

Definition is_deterministic (s : step) : bool :=
  match s with
  | FlattenedStep _ => Flatten.is_deterministic
  | DictToSparseArrayStep => Dict2Array.is_deterministic
  | Word2VecEncoderStep => Word2Vec.is_deterministic
  | FunctionStep cls => Func.is_deterministic cls
  end.

Definition get_checkpoint_metadata (s : step) : pyobj :=
  match s with
  | FlattenedStep self => Flatten.get_checkpoint_metadata self
  | DictToSparseArrayStep => Dict2Array.get_checkpoint_metadata
  | Word2VecEncoderStep => Word2Vec.get_checkpoint_metadata
  | FunctionStep cls => Func.get_checkpoint_metadata cls
  end.

Definition checkpoint_is_valid (s : step) (metadata : pyobj) : outcome bool :=
  match s with
  | FlattenedStep self => Flatten.checkpoint_is_valid self metadata
  | DictToSparseArrayStep => Dict2Array.checkpoint_is_valid metadata
  | Word2VecEncoderStep => Word2Vec.checkpoint_is_valid metadata
  | FunctionStep cls => Func.checkpoint_is_valid cls metadata
  end.

(** ** Executing a step *)

(** What the orchestrator hands [execute]: the results of the input steps,
    of the kind each of the four steps takes. *)
Inductive step_inputs : Type :=
| DocumentLists (inputs : gmap string (list Flatten.document))
| CountDicts (word_to_index : gmap string Z)
    (documents : list Dict2Array.document)
| Embedding (vectors : gmap string Numpy.vector)
    (documents : list (list string))
| Objects (inputs : list pyobj).

Inductive step_result : Type :=
| FlatDocuments (result : list Flatten.flat_document)
| SparseArray (result : Scipy.csr_array)
| Matrix (result : Numpy.matrix)
| Object (result : pyobj).

(** The state an execution runs in and leaves behind: the mutable state of
    the process and the log of the configuration keys consulted. *)
Record process : Type := {
  globals : world;
  consulted : list string
}.

Definition tagged {A} (tag : A -> step_result) (m : outcome A)
  : outcome step_result :=
  a ← m; mret (tag a).

(** [execute] on an instance of [s] configured with [conf]; [None] for
    inputs of another kind than the step takes, which the orchestrator does
    not hand it. *)
Definition execute_step (s : step) (conf : config) (inputs : step_inputs)
    (p : process) : option (outcome step_result * process) :=
  match s, inputs with
  | FlattenedStep _, DocumentLists inputs =>
      Some (tagged FlatDocuments
              (Flatten.execute {| Flatten.self_config := conf |} inputs), p)
  | DictToSparseArrayStep, CountDicts word_to_index documents =>
      Some (tagged SparseArray (Dict2Array.execute word_to_index documents), p)
  | Word2VecEncoderStep, Embedding vectors documents =>
      let '(log, result) :=
        Word2Vec.execute conf vectors documents (consulted p) in
      Some (tagged Matrix result, {| globals := globals p; consulted := log |})
  | FunctionStep cls, Objects inputs =>
      let self := {| Func.instance_class := Func.class_name cls;
                     Func.instance_config := conf |} in
      let '(result, w) := Func.execute cls self inputs (globals p) in
      Some (tagged Object result, {| globals := w; consulted := consulted p |})
  | _, _ => None
  end.

(** A function whose outcome is decided by its arguments: whatever state the
    process is in, a call with the same arguments has the same outcome. *)
Definition deterministic_function (f : Func.pyfunction) : Prop :=
  forall self inputs conf w w',
    (Func.call f self inputs conf w).1 = (Func.call f self inputs conf w').1.

(** * Specification vocabulary and sample inputs *)

(** The record of keyword arguments with another purity flag. *)
Definition with_purity (flag : bool) (args : Func.pipeline_step_args)
  : Func.pipeline_step_args :=
  {| Func.save_func := Func.save_func args;
     Func.load_func := Func.load_func args;
     Func.supported_input_steps := Func.supported_input_steps args;
     Func.marker_classes := Func.marker_classes args;
     Func.is_pure := flag;
     Func.arguments := Func.arguments args;
     Func.constraints := Func.constraints args |}.

(** A function whose source text is [text], if any; it returns [None]. *)
Definition function_with_source (text : option string) : Func.pyfunction :=
  {| Func.__name__ := "job";
     Func.source_text := text;
     Func.call := fun _ _ _ w => (Return (Atom PNone), w) |}.

(** Keyword arguments for the examples; persistence plays no part in
    them. *)
Definition sample_args (pure : bool) (supported : pyobj)
  : Func.pipeline_step_args :=
  {| Func.save_func := fun _ _ fs => Return fs;
     Func.load_func := fun _ _ => Return (Atom PNone);
     Func.supported_input_steps := supported;
     Func.marker_classes := [];
     Func.is_pure := pure;
     Func.arguments := None;
     Func.constraints := None |}.

(** A stand-in for the interpreter's [hash] in the examples: the length of
    the text. *)
Definition sample_hash (text : string) : Z := Z.of_nat (String.length text).

(** The class synthesized for a function with the given source text, under
    the given purity flag; the source [pass] has the fingerprint 4. *)
Definition sample_step (pure : bool) (text : option string)
  : Func.FunctionStepWrapper :=
  Func.pipeline_step sample_hash
    (sample_args pure (PList [PClass "Flattened"]))
    (function_with_source text).

(** A function that numbers its calls: it reads the counter [calls] of the
    process, adds one, stores and returns it. *)
Definition counter_value (w : world) : Z :=
  match w !! "calls" with
  | Some (PInt n) => n
  | _ => 0
  end.

Definition counting_function : Func.pyfunction :=
  {| Func.__name__ := "ticket";
     Func.source_text := Some "def ticket(self, conf): return next(calls)";
     Func.call := fun _ _ _ w =>
       let n := counter_value w + 1 in
       (Return (Atom (PInt n)), <[ "calls" := PInt n ]> w) |}.

(** The class built from it with [is_pure=True]. *)
Definition counting_step : Func.FunctionStepWrapper :=
  Func.pipeline_step sample_hash
    (sample_args true (PList [PClass "Flattened"]))
    counting_function.

(** The source text of a one-line function, as [inspect.getsource] gives
    it, and the class built from it in a process started with
    [PYTHONHASHSEED=seed]. *)
Definition newline : string := String (Ascii.ascii_of_nat 10) EmptyString.

Definition job_source : string := "def job(self, conf): return None" +:+ newline.

Definition built_in_process (seed : Z) : Func.FunctionStepWrapper :=
  Func.pipeline_step (CPython.str_hash (CPython.seeded seed))
    (sample_args true (PList [PClass "Flattened"]))
    (function_with_source (Some job_source)).

(** A serializer that loses nothing, for one: a string as its bytes. *)
#[export] Instance string_bytes : Serializer string := {|
  dumps := String.list_byte_of_string;
  loads := fun content => Return (String.string_of_list_byte content)
|}.

(** An execution that consults keys of [keys] only: from any log it
    prepends the same consulted keys, all of [keys], and has the same
    outcome, which is a configuration error at a key of [keys] only. *)
Definition reads_only {A} (keys : list string) (m : Conf.Exec A) : Prop :=
  exists (ks : list string) (r : outcome A),
    Forall (fun k => k ∈ keys) ks /\
    (forall key, r = Raise (ConfigurationError key) -> key ∈ keys) /\
    forall log, m log = (ks ++ log, r).

(** The tokens of a list of count dicts, in the order [execute] meets them,
    with their rows, their counts, and the first one without an index. *)
Definition tokens (documents : list Dict2Array.document) : list string :=
  concat ((fun document => document.*1) <$> documents).

Definition counts (documents : list Dict2Array.document) : list Z :=
  concat ((fun document => document.*2) <$> documents).

Fixpoint rows_from (row : nat) (documents : list Dict2Array.document)
  : list nat :=
  match documents with
  | [] => []
  | document :: rest => replicate (length document) row ++ rows_from (S row) rest
  end.

Definition first_missing (word_to_index : gmap string Z)
    (documents : list Dict2Array.document) : option string :=
  List.find (fun token => bool_decide (word_to_index !! token = None))
    (tokens documents).

(** The indices of the tokens, for the tokens that have one. *)
Definition indices (word_to_index : gmap string Z)
    (documents : list Dict2Array.document) : list Z :=
  omap (fun token => word_to_index !! token) (tokens documents).

(** The counts that document [row] holds for the tokens whose index is
    [column], in the order of the document. *)
Definition counts_at (word_to_index : gmap string Z)
    (documents : list Dict2Array.document) (row : nat) (column : Z)
  : list Z :=
  match documents !! row with
  | Some document =>
      omap (fun item : string * Z =>
              if bool_decide (word_to_index !! item.1 = Some column)
              then Some item.2 else None)
        document
  | None => []
  end.

Definition total (values : list Z) : Z := foldr Z.add 0 values.

(** The values of a signed 64-bit integer. *)
Definition in_int64 (value : Z) : Prop := - 2 ^ 63 <= value < 2 ^ 63.

(** The values a list of (value, position) items holds for one position. *)
Definition values_at (position : Z * Z) (items : list (Z * (Z * Z)))
  : list Z :=
  omap (fun item : Z * (Z * Z) =>
          if bool_decide (item.2 = position) then Some item.1 else None)
    items.
Arguments values_at : simpl never.

(** The mapping and the documents of the scenarios. *)
Definition ab_index : gmap string Z := {[ "a" := 0; "b" := 1 ]}.

(** ** A serialization for the examples *)

(** A positive number as its binary digits, one per byte, and back. *)
Fixpoint positive_to_bytes (p : positive) : list Byte.byte :=
  match p with
  | xH => []
  | xO q => Byte.x00 :: positive_to_bytes q
  | xI q => Byte.x01 :: positive_to_bytes q
  end.

Fixpoint bytes_to_positive (content : list Byte.byte) : positive :=
  match content with
  | [] => xH
  | Byte.x00 :: rest => xO (bytes_to_positive rest)
  | _ :: rest => xI (bytes_to_positive rest)
  end.

(** Any countable type serialized through its code. *)
Definition coded `{Countable A} : Serializer A := {|
  dumps := fun a => positive_to_bytes (encode a);
  loads := fun content =>
    match decode (bytes_to_positive content) with
    | Some a => Return a
    | None => Raise (ValueError "unreadable")
    end
|}.

#[export] Instance pyval_eq_dec : EqDecision pyval.
Proof. solve_decision. Defined.

#[export] Instance pyval_countable : Countable pyval :=
  inj_countable'
    (fun v => match v with
              | PNone => inl (inl ())
              | PBool b => inl (inr b)
              | PInt z => inr (inl z)
              | PStr s => inr (inr (inl s))
              | PClass c => inr (inr (inr c))
              end)
    (fun c => match c with
              | inl (inl _) => PNone
              | inl (inr b) => PBool b
              | inr (inl z) => PInt z
              | inr (inr (inl s)) => PStr s
              | inr (inr (inr c)) => PClass c
              end)
    (fun v => match v with
              | PNone | PBool _ | PInt _ | PStr _ | PClass _ => eq_refl
              end).

#[export] Instance pyobj_eq_dec : EqDecision pyobj.
Proof. solve_decision. Defined.

#[export] Instance pyobj_countable : Countable pyobj :=
  inj_countable'
    (fun o => match o with
              | Atom v => inl v
              | PList items => inr (inl items)
              | PDict entries => inr (inr entries)
              end)
    (fun c => match c with
              | inl v => Atom v
              | inr (inl items) => PList items
              | inr (inr entries) => PDict entries
              end)
    (fun o => match o with
              | Atom _ | PList _ | PDict _ => eq_refl
              end).

#[export] Instance dtype_countable : Countable Scipy.dtype :=
  inj_countable'
    (fun d => match d with
              | Scipy.Int64 => 0%nat
              | Scipy.UInt64 => 1%nat
              | Scipy.Float64 => 2%nat
              | Scipy.Object => 3%nat
              end)
    (fun n => match n with
              | 0%nat => Scipy.Int64
              | 1%nat => Scipy.UInt64
              | 2%nat => Scipy.Float64
              | _ => Scipy.Object
              end)
    (fun d => match d with
              | Scipy.Int64 | Scipy.UInt64 | Scipy.Float64 | Scipy.Object =>
                  eq_refl
              end).

#[export] Instance contents_eq_dec : EqDecision Scipy.contents.
Proof. solve_decision. Defined.

#[export] Instance contents_countable : Countable Scipy.contents :=
  inj_countable'
    (fun c => match c with
              | Scipy.Integers entries => inl entries
              | Scipy.Floats positions => inr positions
              end)
    (fun c => match c with
              | inl entries => Scipy.Integers entries
              | inr positions => Scipy.Floats positions
              end)
    (fun c => match c with
              | Scipy.Integers _ | Scipy.Floats _ => eq_refl
              end).

#[export] Instance csr_array_eq_dec : EqDecision Scipy.csr_array.
Proof. solve_decision. Defined.

#[export] Instance csr_array_countable : Countable Scipy.csr_array :=
  inj_countable'
    (fun a => (Scipy.shape a, Scipy.dtype_of a, Scipy.stored a))
    (fun '(shape, dtype_of, stored) =>
       {| Scipy.shape := shape; Scipy.dtype_of := dtype_of;
          Scipy.stored := stored |})
    (fun a => match a with Scipy.Build_csr_array _ _ _ => eq_refl end).

#[export] Instance spec_float_eq_dec : EqDecision SpecFloat.spec_float.
Proof. solve_decision. Defined.

#[export] Instance spec_float_countable : Countable SpecFloat.spec_float :=
  inj_countable'
    (fun x => match x with
              | SpecFloat.S754_zero s => inl (inl s)
              | SpecFloat.S754_infinity s => inl (inr s)
              | SpecFloat.S754_nan => inr (inl ())
              | SpecFloat.S754_finite s m e => inr (inr (s, m, e))
              end)
    (fun c => match c with
              | inl (inl s) => SpecFloat.S754_zero s
              | inl (inr s) => SpecFloat.S754_infinity s
              | inr (inl _) => SpecFloat.S754_nan
              | inr (inr (s, m, e)) => SpecFloat.S754_finite s m e
              end)
    (fun x => match x with
              | SpecFloat.S754_zero _ | SpecFloat.S754_infinity _
              | SpecFloat.S754_nan | SpecFloat.S754_finite _ _ _ => eq_refl
              end).

#[export] Instance float_eq_dec : EqDecision float.
Proof.
  intros x y. destruct (decide (Prim2SF x = Prim2SF y)) as [E | N].
  - left. by rewrite <- (SF2Prim_Prim2SF x), <- (SF2Prim_Prim2SF y), E.
  - right. by intros ->.
Defined.

#[export] Instance float_countable : Countable float :=
  inj_countable' Prim2SF SF2Prim SF2Prim_Prim2SF.

(** Keyword arguments that persist with [pickle_saver] and
    [pickle_loader]. *)
Definition pickle_args `{Serializer pyobj} (pure : bool)
  : Func.pipeline_step_args :=
  {| Func.save_func := Func.pickle_saver;
     Func.load_func := Func.pickle_loader;
     Func.supported_input_steps := PList [PClass "Flattened"];
     Func.marker_classes := [];
     Func.is_pure := pure;
     Func.arguments := None;
     Func.constraints := None |}.

(** ** Vocabulary of the word2vec step *)

(** The vectors of the words of a list that the embedding knows, in order;
    and the vectors of all the words, [r] standing for an unknown one. *)
Definition known_vectors (vectors : gmap string Numpy.vector)
    (words : list string) : list Numpy.vector :=
  omap (fun word => vectors !! word) words.

Definition replaced_vectors (vectors : gmap string Numpy.vector)
    (r : Numpy.vector) (words : list string) : list Numpy.vector :=
  (fun word => default r (vectors !! word)) <$> words.

(** An embedding whose vectors all have [d] components. *)
Definition uniform (d : nat) (vectors : gmap string Numpy.vector) : Prop :=
  forall word v, vectors !! word = Some v -> length v = d.

(** A two-dimensional array that [numpy.vstack] can have produced: at least
    one row, and rows of one length. *)
Definition rectangular (m : Numpy.matrix) : Prop :=
  m <> [] /\ Forall (fun row => length row = Numpy.columns m) m.

(** A document that the policy ['error'] turns into an array: every word is
    in the embedding, there is at least one word, and the vectors of the
    words have one length ([numpy.vstack] raises [ValueError] otherwise). *)
Definition stackable (vectors : gmap string Numpy.vector)
    (document : list string) : Prop :=
  Forall (fun word => is_Some (vectors !! word)) document /\
  document <> [] /\
  exists d, Forall (fun row => length row = d) (known_vectors vectors document).

(** Stacking the rows each document contributes, document by document. *)
Fixpoint stack_each (rows_of : list string -> list (option Numpy.vector))
    (documents : list (list string)) : outcome (list Numpy.matrix) :=
  match documents with
  | [] => Return []
  | document :: rest =>
      stacked ← Numpy.vstack_vectors (rows_of document);
      others ← stack_each rows_of rest;
      mret (stacked :: others)
  end.

(** * Checkpoint validity of the adapter *)

Section AdapterValidity.

Import Func.

Lemma getitem_singleton (key : string) (v : pyval) :
  getitem (PDict {[ key := v ]}) key = Return v.
Proof. unfold getitem. by rewrite lookup_singleton_eq. Qed.

Lemma py_eq_int_refl (z : Z) : py_eq (PInt z) (PInt z) = true.
Proof. apply Z.eqb_refl. Qed.

(** What equality with the integer [z] admits: [z] itself, or the boolean
    whose integer value is [z]. *)
Lemma py_eq_int_inv (z : Z) (v : pyval) :
  py_eq (PInt z) v = true <-> v = PInt z \/ exists b, v = PBool b /\ Z.b2z b = z.
Proof.
  split.
  - destruct v as [ | b | y | s | c ]; unfold py_eq; try discriminate.
    + intros E%Z.eqb_eq. right. by exists b.
    + intros E%Z.eqb_eq. left. by subst.
  - intros [-> | (b & -> & E)]; unfold py_eq; apply Z.eqb_eq; done.
Qed.

Lemma checkpoint_is_valid_no_hash cls metadata :
  _hash cls = None -> checkpoint_is_valid cls metadata = Return false.
Proof. unfold checkpoint_is_valid. by intros ->. Qed.

Lemma checkpoint_is_valid_hash cls metadata z :
  _hash cls = Some z ->
  checkpoint_is_valid cls metadata
  = (stored ← getitem metadata "function_hash"; mret (py_eq (PInt z) stored)).
Proof. unfold checkpoint_is_valid. by intros ->. Qed.

Lemma checkpoint_is_valid_own_metadata cls :
  checkpoint_is_valid cls (get_checkpoint_metadata cls)
  = Return (bool_decide (is_Some (_hash cls))).
Proof.
  unfold checkpoint_is_valid, get_checkpoint_metadata.
  destruct (_hash cls) as [z | ]; [ | done ].
  rewrite getitem_singleton. simpl.
  unfold mret, outcome_ret. by rewrite py_eq_int_refl.
Qed.

Lemma decorator_hash py_hash args func :
  _hash (decorator py_hash args func) = py_hash <$> source_text func.
Proof. unfold decorator, inspect_getsource. simpl. by destruct (source_text func). Qed.

End AdapterValidity.

(** C1, as the code has it.  [checkpoint_is_valid(metadata)] returns [True]
    exactly when the class has a fingerprint, [metadata] can be indexed at
    ['function_hash'], and the entry equals the fingerprint.  Without a
    fingerprint it returns [False] whatever [metadata] is.  With one, a
    [metadata] that cannot be indexed at ['function_hash'] makes the call
    raise what the indexing raises: it does not return [False]. *)
Theorem adapter_checkpoint_is_valid_cases
    (cls : Func.FunctionStepWrapper) (metadata : pyobj) :
  (Func.checkpoint_is_valid cls metadata = Return true <->
     exists z stored,
       Func._hash cls = Some z /\
       getitem metadata "function_hash" = Return stored /\
       py_eq (PInt z) stored = true) /\
  (Func._hash cls = None ->
     Func.checkpoint_is_valid cls metadata = Return false) /\
  (forall z e,
     Func._hash cls = Some z ->
     getitem metadata "function_hash" = Raise e ->
     Func.checkpoint_is_valid cls metadata = Raise e) /\
  (forall z stored,
     Func._hash cls = Some z ->
     getitem metadata "function_hash" = Return stored ->
     Func.checkpoint_is_valid cls metadata = Return (py_eq (PInt z) stored)).
Proof.
  repeat split.
  - unfold Func.checkpoint_is_valid.
    destruct (Func._hash cls) as [z | ]; [ | discriminate ].
    destruct (getitem metadata "function_hash") as [stored | e] eqn:G;
      simpl; [ | discriminate ].
    intros [= E]. by exists z, stored.
  - intros (z & stored & Hz & G & E).
    rewrite (checkpoint_is_valid_hash _ _ _ Hz), G. simpl.
    unfold mret, outcome_ret. by rewrite E.
  - apply checkpoint_is_valid_no_hash.
  - intros z e Hz G. by rewrite (checkpoint_is_valid_hash _ _ _ Hz), G.
  - intros z stored Hz G. by rewrite (checkpoint_is_valid_hash _ _ _ Hz), G.
Qed.

(** C1 fails as stated: a class with a fingerprint (here 4) asked about a
    stored dict without ['function_hash'] raises
    [KeyError('function_hash')]. *)
Lemma adapter_missing_field_raises :
  Func._hash (sample_step true (Some "pass")) = Some 4 /\
  getitem (PDict ∅) "function_hash" = Raise (KeyError "function_hash") /\
  Func.checkpoint_is_valid (sample_step true (Some "pass")) (PDict ∅)
  = Raise (KeyError "function_hash").
Proof. done. Qed.

(** Metadata that is no dict at all raises [TypeError]. *)
Example adapter_metadata_not_a_dict :
  Func.checkpoint_is_valid (sample_step true (Some "pass")) (Atom PNone)
  = Raise TypeError.
Proof. done. Qed.

(** * Purity and validity are independent signals *)

(** C2, as the code has it.  A step that is not deterministic is an adapter
    class built with [is_pure=False]: the other three steps are
    deterministic.  [is_deterministic] returns the purity flag, and
    [checkpoint_is_valid] never reads it: the same call on the class built
    with the opposite flag gives the same outcome.  So a class built with
    [is_pure=False] from a function with source text accepts the metadata of
    its own execution. *)
Theorem adapter_validity_ignores_purity
    (py_hash : string -> Z) (args : Func.pipeline_step_args)
    (func : Func.pyfunction) (metadata : pyobj) :
  (forall s, is_deterministic s = false ->
     exists cls, s = FunctionStep cls /\ Func._pure cls = false) /\
  (forall flag,
     Func.is_deterministic (Func.pipeline_step py_hash (with_purity flag args) func)
     = flag) /\
  (forall flag,
     Func.checkpoint_is_valid
       (Func.pipeline_step py_hash (with_purity flag args) func) metadata
     = Func.checkpoint_is_valid (Func.pipeline_step py_hash args func) metadata) /\
  (forall text,
     Func.source_text func = Some text ->
     let cls := Func.pipeline_step py_hash (with_purity false args) func in
     Func.is_deterministic cls = false /\
     Func.checkpoint_is_valid cls (Func.get_checkpoint_metadata cls)
     = Return true).
Proof.
  split; [ | split; [ | split ] ].
  - intros [self | | | cls]; try discriminate. intros E. by exists cls.
  - reflexivity.
  - reflexivity.
  - intros text E cls. split; [ reflexivity | ].
    rewrite checkpoint_is_valid_own_metadata.
    unfold cls, Func.pipeline_step. by rewrite decorator_hash, E.
Qed.

(** C2 fails as stated: a class built with [is_pure=False] from a function
    with source text (fingerprint 4) is not deterministic, and it accepts
    the stored metadata [{'function_hash': 4}], which is its own. *)
Lemma impure_adapter_accepts_matching_metadata :
  is_deterministic (FunctionStep (sample_step false (Some "pass"))) = false /\
  Func.get_checkpoint_metadata (sample_step false (Some "pass"))
  = PDict {[ "function_hash" := PInt 4 ]} /\
  checkpoint_is_valid (FunctionStep (sample_step false (Some "pass")))
    (PDict {[ "function_hash" := PInt 4 ]}) = Return true.
Proof. done. Qed.

(** * A function without source text *)

(** C3.  When [inspect.getsource] raises [OSError] for the wrapped function,
    the class has no fingerprint, and [checkpoint_is_valid] returns [False]
    for every metadata, the class's own included, whatever the purity flag
    and the other keyword arguments are. *)
Theorem adapter_without_source_never_valid
    (py_hash : string -> Z) (args : Func.pipeline_step_args)
    (func : Func.pyfunction) (metadata : pyobj) :
  Func.inspect_getsource func = Func.OSError ->
  let cls := Func.pipeline_step py_hash args func in
  Func._hash cls = None /\
  Func.get_checkpoint_metadata cls = PDict {[ "function_hash" := PNone ]} /\
  Func.checkpoint_is_valid cls metadata = Return false /\
  Func.checkpoint_is_valid cls (Func.get_checkpoint_metadata cls) = Return false.
Proof.
  intros E cls.
  assert (Func._hash cls = None) as H.
  { unfold cls, Func.pipeline_step. rewrite decorator_hash.
    unfold Func.inspect_getsource in E.
    by destruct (Func.source_text func). }
  repeat split; [ done | | by apply checkpoint_is_valid_no_hash .. ].
  unfold Func.get_checkpoint_metadata. by rewrite H.
Qed.

Lemma adapter_without_source_never_valid_witness :
  Func.inspect_getsource (function_with_source None) = Func.OSError /\
  Func.checkpoint_is_valid
    (Func.pipeline_step sample_hash (sample_args true (Atom PNone))
       (function_with_source None))
    (PDict {[ "function_hash" := PNone ]}) = Return false.
Proof.
  split; [ reflexivity | ].
  apply (adapter_without_source_never_valid sample_hash
           (sample_args true (Atom PNone)) (function_with_source None)
           (PDict {[ "function_hash" := PNone ]})).
  reflexivity.
Defined.

(** * Input compatibility of the adapter *)

(** C10.  [supports_step_as_input(step)] returns the supplied
    [supported_input_steps] unchanged and does not look at [step]: any two
    candidates get the same answer, and when the supplied value is truthy
    every candidate is accepted. *)
Theorem supports_step_as_input_ignores_step
    (py_hash : string -> Z) (args : Func.pipeline_step_args)
    (func : Func.pyfunction) (cls : Func.FunctionStepWrapper)
    (step1 step2 : pyval) :
  Func.supports_step_as_input cls step1 = Func._supported_inputs cls /\
  Func.supports_step_as_input cls step1 = Func.supports_step_as_input cls step2 /\
  Func.supports_step_as_input (Func.pipeline_step py_hash args func) step1
  = Func.supported_input_steps args /\
  (truthy (Func.supported_input_steps args) = true ->
   forall step,
     truthy (Func.supports_step_as_input
               (Func.pipeline_step py_hash args func) step) = true).
Proof. repeat split. intros T step. exact T. Qed.

(** A non-empty list of accepted classes accepts a class that is not in it. *)
Example nonempty_list_accepts_any_step :
  truthy (Func.supports_step_as_input (sample_step true (Some "pass"))
            (PClass "Word2VecEncoder")) = true.
Proof. reflexivity. Qed.

(** * Executions and the configuration keys they consult *)

Section ReadsOnly.

Import Conf.

Context {A B : Type}.

Lemma reads_only_ret (keys : list string) (a : A) :
  reads_only keys (mret a : Exec A).
Proof. exists [], (Return a). by repeat split. Qed.

Lemma reads_only_lift (keys : list string) (m : outcome A) :
  (forall key, m <> Raise (ConfigurationError key)) ->
  reads_only keys (lift m).
Proof.
  intros Hm. exists [], m. repeat split; [ done | ].
  intros key E. by destruct (Hm key).
Qed.

Lemma reads_only_get_casted_str (keys : list string) (conf : config)
    (key : string) :
  key ∈ keys -> reads_only keys (get_casted_str conf key).
Proof.
  intros Hkey. eexists [key], _. split; [ by constructor | ].
  split; [ | reflexivity ].
  intros key'. destruct (conf !! key) as [[] | ]; by intros [= <-].
Qed.

Lemma reads_only_bind (keys : list string) (m : Exec A) (k : A -> Exec B) :
  reads_only keys m ->
  (forall a, result m = Return a -> reads_only keys (k a)) ->
  reads_only keys (m ≫= k).
Proof.
  intros (ks & r & Hks & Hr & Hm) Hk.
  destruct r as [a | e].
  - destruct (Hk a) as (ks' & r' & Hks' & Hr' & Hka).
    { unfold result. by rewrite Hm. }
    exists (ks' ++ ks), r'. split; [ by apply Forall_app | ].
    split; [ done | ].
    intros log. unfold mbind, exec_bind. by rewrite Hm, Hka, app_assoc.
  - exists ks, (Raise e). split; [ done | ]. split.
    + intros key [= ->]. by apply Hr.
    + intros log. unfold mbind, exec_bind. by rewrite Hm.
Qed.

End ReadsOnly.

Section ReadsOnlyUse.

Import Conf.

Context {A : Type}.

Lemma reads_only_weaken (keys keys' : list string) (m : Exec A) :
  keys ⊆ keys' -> reads_only keys m -> reads_only keys' m.
Proof.
  intros Hsub (ks & r & Hks & Hr & Hm). exists ks, r.
  split; [ | split; [ | done ] ].
  - eapply Forall_impl; [ exact Hks | ]. intros k Hk. by apply Hsub.
  - intros key E. by apply Hsub, Hr.
Qed.

(** The outcome does not depend on the log the execution starts from. *)
Lemma reads_only_result (keys : list string) (m : Exec A) (log : list string) :
  reads_only keys m -> (m log).2 = result m.
Proof. intros (ks & r & _ & _ & Hm). unfold result. by rewrite !Hm. Qed.

Lemma reads_only_consulted (keys : list string) (m : Exec A) (key : string) :
  reads_only keys m -> key ∈ consulted m -> key ∈ keys.
Proof.
  intros (ks & r & Hks & _ & Hm). unfold consulted. rewrite Hm, app_nil_r.
  simpl. intros Hin. by apply (proj1 (Forall_forall _ _) Hks).
Qed.

Lemma reads_only_configuration_error (keys : list string) (m : Exec A)
    (key : string) :
  reads_only keys m -> result m = Raise (ConfigurationError key) -> key ∈ keys.
Proof.
  intros (ks & r & _ & Hr & Hm). unfold result. rewrite Hm. simpl. apply Hr.
Qed.

End ReadsOnlyUse.

(** * The keys the word2vec step consults *)

Section Word2VecReads.

Import Conf Word2Vec.

Lemma get_casted_str_result (conf : config) (key value : string) :
  result (get_casted_str conf key) = Return value ->
  conf !! key = Some (PStr value).
Proof.
  unfold result, get_casted_str. simpl.
  destruct (conf !! key) as [[] | ]; by intros [= ->].
Qed.

Lemma vstack_vectors_error (tup : list (option Numpy.vector)) (key : string) :
  Numpy.vstack_vectors tup <> Raise (ConfigurationError key).
Proof.
  unfold Numpy.vstack_vectors. destruct tup; [ done | ].
  destruct (mapM id _); [ | done ]. by destruct (Numpy.all_equal _).
Qed.

Lemma vstack_error (tup : list Numpy.matrix) (key : string) :
  Numpy.vstack tup <> Raise (ConfigurationError key).
Proof.
  unfold Numpy.vstack. destruct tup; [ done | ].
  by destruct (Numpy.all_equal _).
Qed.

Variables (conf : config) (vectors : gmap string Numpy.vector).

Lemma encode_document_reads replacement_vector document document_vectors :
  reads_only [policy_key]
    (encode_document conf vectors replacement_vector document document_vectors).
Proof.
  revert document_vectors.
  induction document as [ | word rest IH ]; intros document_vectors; simpl.
  - apply reads_only_ret.
  - destruct (vectors !! word) as [v | ]; [ apply IH | ].
    apply reads_only_bind.
    + apply reads_only_get_casted_str. set_solver.
    + intros policy _.
      destruct (String.eqb policy "ignore"); [ apply IH | ].
      destruct (String.eqb policy "error"); [ by apply reads_only_lift | ].
      destruct (String.eqb policy "replace"); apply IH.
Qed.

Lemma encode_documents_reads replacement_vector documents result :
  reads_only [policy_key]
    (encode_documents conf vectors replacement_vector documents result).
Proof.
  revert result.
  induction documents as [ | document rest IH ]; intros result; simpl.
  - apply reads_only_ret.
  - apply reads_only_bind; [ apply encode_document_reads | ].
    intros document_vectors _.
    apply reads_only_bind; [ | intros; apply IH ].
    apply reads_only_lift. intros key. apply vstack_vectors_error.
Qed.

(** After the policy has been read, the rest of [execute] with no
    replacement vector. *)
Lemma execute_tail_reads replacement_vector documents :
  reads_only [policy_key]
    (result ← encode_documents conf vectors replacement_vector documents [];
     lift (Numpy.vstack result)).
Proof.
  apply reads_only_bind; [ apply encode_documents_reads | ].
  intros result _. apply reads_only_lift. intros key. apply vstack_error.
Qed.

Lemma execute_reads documents :
  reads_only [policy_key; replacement_key] (execute conf vectors documents).
Proof.
  unfold execute.
  apply reads_only_bind; [ apply reads_only_get_casted_str; set_solver | ].
  intros policy _. apply reads_only_bind.
  - destruct (String.eqb policy "replace"); [ | apply reads_only_ret ].
    apply reads_only_bind; [ apply reads_only_get_casted_str; set_solver | ].
    intros key _. destruct (vectors !! key); [ apply reads_only_ret | ].
    by apply reads_only_lift.
  - intros replacement_vector _.
    eapply reads_only_weaken; [ | apply execute_tail_reads ].
    intros key Hkey. apply list_elem_of_singleton in Hkey. subst key.
    apply elem_of_cons. by left.
Qed.

Lemma execute_reads_policy documents :
  conf !! policy_key <> Some (PStr "replace") ->
  reads_only [policy_key] (execute conf vectors documents).
Proof.
  intros Hpolicy. unfold execute.
  apply reads_only_bind; [ apply reads_only_get_casted_str; set_solver | ].
  intros policy Hread. apply get_casted_str_result in Hread.
  apply reads_only_bind.
  - destruct (String.eqb policy "replace") eqn:E; [ | apply reads_only_ret ].
    apply String.eqb_eq in E. by subst.
  - intros replacement_vector _. apply execute_tail_reads.
Qed.

End Word2VecReads.

Section Word2VecConfigurations.

Import Conf Word2Vec.

Variables (conf conf' : config) (vectors : gmap string Numpy.vector).
Hypothesis same_policy : conf' !! policy_key = conf !! policy_key.

Lemma get_casted_str_policy_ext (log : list string) :
  get_casted_str conf' policy_key log = get_casted_str conf policy_key log.
Proof. unfold get_casted_str. by rewrite same_policy. Qed.

Lemma encode_document_ext replacement_vector document document_vectors log :
  encode_document conf' vectors replacement_vector document document_vectors log
  = encode_document conf vectors replacement_vector document document_vectors log.
Proof.
  revert document_vectors log.
  induction document as [ | word rest IH ]; intros document_vectors log;
    simpl; [ done | ].
  destruct (vectors !! word) as [v | ]; [ apply IH | ].
  unfold mbind, exec_bind. rewrite get_casted_str_policy_ext.
  destruct (get_casted_str conf policy_key log) as [log' [policy | e]];
    [ | done ].
  destruct (String.eqb policy "ignore"); [ apply IH | ].
  destruct (String.eqb policy "error"); [ done | ].
  destruct (String.eqb policy "replace"); apply IH.
Qed.

Lemma encode_documents_ext replacement_vector documents result log :
  encode_documents conf' vectors replacement_vector documents result log
  = encode_documents conf vectors replacement_vector documents result log.
Proof.
  revert result log.
  induction documents as [ | document rest IH ]; intros result log;
    simpl; [ done | ].
  unfold mbind, exec_bind. rewrite encode_document_ext.
  destruct (encode_document conf _ _ _ _ _) as [log' [document_vectors | e]];
    [ | done ].
  destruct (lift _ log') as [log'' [stacked | e]]; [ apply IH | done ].
Qed.

Lemma execute_ext documents log :
  conf !! policy_key <> Some (PStr "replace") ->
  execute conf' vectors documents log = execute conf vectors documents log.
Proof.
  intros Hpolicy. unfold execute, mbind, exec_bind.
  rewrite get_casted_str_policy_ext.
  destruct (get_casted_str conf policy_key log) as [log' [policy | e]] eqn:G;
    [ | done ].
  destruct (String.eqb policy "replace") eqn:E.
  { apply String.eqb_eq in E. subst policy. exfalso. apply Hpolicy.
    unfold get_casted_str in G.
    destruct (conf !! policy_key) as [[] | ]; congruence. }
  unfold mret, exec_ret. rewrite encode_documents_ext.
  done.
Qed.

End Word2VecConfigurations.

(** C8.  When the configuration's value at ['params.unknown-word-policy'] is
    not the string ['replace'], [execute] consults no key but that one: the
    key ['params.unknown-word-replacement'] is not among the consulted keys,
    a configuration that differs at that key only (one that omits it, for
    one) gives the same consulted keys and the same outcome, and this
    outcome is not a configuration error at that key. *)
Theorem replacement_key_not_consulted
    (conf : config) (vectors : gmap string Numpy.vector)
    (documents : list (list string)) :
  conf !! Word2Vec.policy_key <> Some (PStr "replace") ->
  (Word2Vec.replacement_key ∉
     Conf.consulted (Word2Vec.execute conf vectors documents)) /\
  (forall key,
     key ∈ Conf.consulted (Word2Vec.execute conf vectors documents) ->
     key = Word2Vec.policy_key) /\
  (forall conf' log,
     (forall key, key <> Word2Vec.replacement_key -> conf' !! key = conf !! key) ->
     Word2Vec.execute conf' vectors documents log
     = Word2Vec.execute conf vectors documents log) /\
  Conf.result
    (Word2Vec.execute (delete Word2Vec.replacement_key conf) vectors documents)
  = Conf.result (Word2Vec.execute conf vectors documents) /\
  Conf.result
    (Word2Vec.execute (delete Word2Vec.replacement_key conf) vectors documents)
  <> Raise (ConfigurationError Word2Vec.replacement_key).
Proof.
  intros Hpolicy.
  pose proof (execute_reads_policy conf vectors documents Hpolicy) as Hreads.
  assert (forall key,
            key ∈ Conf.consulted (Word2Vec.execute conf vectors documents) ->
            key = Word2Vec.policy_key) as Honly.
  { intros key Hin. apply (reads_only_consulted _ _ _ Hreads) in Hin.
    by apply list_elem_of_singleton in Hin. }
  assert (forall conf' log,
            (forall key, key <> Word2Vec.replacement_key ->
                         conf' !! key = conf !! key) ->
            Word2Vec.execute conf' vectors documents log
            = Word2Vec.execute conf vectors documents log) as Hext.
  { intros conf' log Hsame. apply execute_ext; [ | done ].
    by apply Hsame. }
  assert (Conf.result
            (Word2Vec.execute (delete Word2Vec.replacement_key conf)
               vectors documents)
          = Conf.result (Word2Vec.execute conf vectors documents)) as Hdel.
  { unfold Conf.result. rewrite Hext; [ done | ].
    intros key Hkey. by rewrite lookup_delete_ne. }
  repeat split; [ | exact Honly | exact Hext | exact Hdel | ].
  - intros Hin. by apply Honly in Hin.
  - rewrite Hdel. intros E.
    apply (reads_only_configuration_error _ _ _ Hreads) in E.
    by apply list_elem_of_singleton in E.
Qed.

Lemma replacement_key_not_consulted_witness :
  ({[ "params.unknown-word-policy" := PStr "ignore" ]} : config)
    !! Word2Vec.policy_key <> Some (PStr "replace") /\
  Conf.result
    (Word2Vec.execute
       (delete Word2Vec.replacement_key
          {[ "params.unknown-word-policy" := PStr "ignore" ]})
       {[ "a" := [1%float; 2%float] ]} [["a"; "zz"]; ["a"]])
  = Conf.result
      (Word2Vec.execute {[ "params.unknown-word-policy" := PStr "ignore" ]}
         {[ "a" := [1%float; 2%float] ]} [["a"; "zz"]; ["a"]]).
Proof.
  assert (({[ "params.unknown-word-policy" := PStr "ignore" ]} : config)
            !! Word2Vec.policy_key <> Some (PStr "replace")) as H.
  { vm_compute. discriminate. }
  split; [ exact H | ].
  apply (replacement_key_not_consulted
           {[ "params.unknown-word-policy" := PStr "ignore" ]}
           {[ "a" := [1%float; 2%float] ]} [["a"; "zz"]; ["a"]] H).
Defined.

(** The enablement constraint of the ['unknown-word-replacement'] entry is
    false exactly when the policy is not ['replace']. *)
Lemma unknown_word_replacement_enabled (conf : config) :
  ArgSpec.enabled conf Word2Vec.unknown_word_replacement = false <->
  conf !! Word2Vec.policy_key <> Some (PStr "replace").
Proof.
  unfold ArgSpec.enabled, Word2Vec.unknown_word_replacement, ArgSpec.holds,
    ArgSpec.term_value, Word2Vec.policy_key.
  change ("params." +:+ "unknown-word-policy")
    with "params.unknown-word-policy".
  destruct (conf !! "params.unknown-word-policy") as [v | ]; [ | done ].
  destruct v as [ | b | z | s | c ]; unfold py_eq; try done.
  destruct (String.eqb s "replace") eqn:E.
  - apply String.eqb_eq in E. subst. split; [ done | intros H; by destruct H ].
  - apply String.eqb_neq in E. split; [ congruence | done ].
Qed.

(** Under the ['replace'] policy the key is consulted, and its absence is a
    configuration error. *)
Example replace_policy_consults_replacement :
  Word2Vec.execute {[ "params.unknown-word-policy" := PStr "replace" ]}
    {[ "a" := [1%float; 2%float] ]} [["a"; "zz"]; ["a"]] []
  = ([Word2Vec.replacement_key; Word2Vec.policy_key],
     Raise (ConfigurationError Word2Vec.replacement_key)).
Proof. vm_compute. reflexivity. Qed.

(** * Deterministic steps and their own metadata *)

(** C4, as the code has it.  For a deterministic step, validity checked
    against the metadata of its own execution is true unless the step is an
    adapter class without a fingerprint, and two executions on identical
    inputs and configuration, from whatever states of the process, have
    value-equal results unless the step is an adapter class whose wrapped
    function is itself not deterministic. *)
Theorem deterministic_step_accepts_own_metadata (s : step) :
  is_deterministic s = true ->
  ((forall cls, s = FunctionStep cls -> is_Some (Func._hash cls)) ->
   checkpoint_is_valid s (get_checkpoint_metadata s) = Return true) /\
  ((forall cls, s = FunctionStep cls ->
      deterministic_function (Func._function cls)) ->
   forall conf inputs p p' r r',
     execute_step s conf inputs p = Some r ->
     execute_step s conf inputs p' = Some r' ->
     r.1 = r'.1).
Proof.
  intros Hdet. split.
  - intros Hhash. destruct s as [self | | | cls]; try done.
    simpl. rewrite checkpoint_is_valid_own_metadata.
    by rewrite bool_decide_eq_true_2; [ | apply Hhash ].
  - intros Hfun conf inputs p p' r r' E E'.
    destruct s as [self | | | cls], inputs; try discriminate; simpl in E, E'.
    + by simplify_eq.
    + by simplify_eq.
    + pose proof (reads_only_result _ _ (consulted p)
                    (execute_reads conf vectors documents)) as R.
      pose proof (reads_only_result _ _ (consulted p')
                    (execute_reads conf vectors documents)) as R'.
      destruct (Word2Vec.execute conf vectors documents (consulted p))
        as [log result].
      destruct (Word2Vec.execute conf vectors documents (consulted p'))
        as [log' result'].
      simpl in R, R'. simplify_eq. simpl. congruence.
    + pose proof (Hfun cls eq_refl
                    {| Func.instance_class := Func.class_name cls;
                       Func.instance_config := conf |}
                    inputs conf (globals p) (globals p')) as R.
      unfold Func.execute in E, E'. simpl in E, E'.
      destruct (Func.call _ _ _ _ (globals p)) as [result w].
      destruct (Func.call _ _ _ _ (globals p')) as [result' w'].
      simpl in R. simplify_eq. simpl. congruence.
Qed.

Lemma deterministic_step_accepts_own_metadata_witness :
  let s := FunctionStep (sample_step true (Some "pass")) in
  let p := {| globals := ∅; consulted := [] |} in
  is_deterministic s = true /\
  checkpoint_is_valid s (get_checkpoint_metadata s) = Return true /\
  execute_step s ∅ (Objects [Atom (PInt 7)]) p
  = Some (Return (Object (Atom PNone)), p) /\
  (Return (Object (Atom PNone)), p).1 = (Return (Object (Atom PNone)), p).1.
Proof.
  intros s p.
  destruct (deterministic_step_accepts_own_metadata s eq_refl) as [V D].
  split; [ reflexivity | ]. split; [ | split; [ reflexivity | ] ].
  - apply V. intros cls E. injection E as <-. simpl. eauto.
  - apply (D (fun cls E => match E in _ = y return
                               match y with
                               | FunctionStep c =>
                                   deterministic_function (Func._function c)
                               | _ => True
                               end
                             with eq_refl => fun _ _ _ _ _ => eq_refl end)
             ∅ (Objects [Atom (PInt 7)]) p p _ _ eq_refl eq_refl).
Defined.

(** C4 fails as stated, in either half.  A class built with [is_pure=True]
    from a function without source text is deterministic and rejects the
    metadata of its own execution.  A class built with [is_pure=True] from a
    function that numbers its calls is deterministic and accepts its own
    metadata, and two executions in a row on identical inputs and
    configuration return 1 and then 2: the flag is what the author
    declared, and nothing checks it. *)
Lemma deterministic_adapter_fails_either_half :
  (is_deterministic (FunctionStep (sample_step true None)) = true /\
   get_checkpoint_metadata (FunctionStep (sample_step true None))
   = PDict {[ "function_hash" := PNone ]} /\
   checkpoint_is_valid (FunctionStep (sample_step true None))
     (get_checkpoint_metadata (FunctionStep (sample_step true None)))
   = Return false) /\
  (let s := FunctionStep counting_step in
   let p0 := {| globals := ∅; consulted := [] |} in
   let p1 := {| globals := {[ "calls" := PInt 1 ]}; consulted := [] |} in
   let p2 := {| globals := {[ "calls" := PInt 2 ]}; consulted := [] |} in
   is_deterministic s = true /\
   checkpoint_is_valid s (get_checkpoint_metadata s) = Return true /\
   execute_step s ∅ (Objects []) p0
   = Some (Return (Object (Atom (PInt 1))), p1) /\
   execute_step s ∅ (Objects []) p1
   = Some (Return (Object (Atom (PInt 2))), p2)).
Proof.
  split; [ done | ].
  split; [ done | ]. split; [ done | ].
  split; vm_compute; reflexivity.
Qed.

(** * The flatten step *)

(** C9.  [execute] maps each document to the concatenation of its token
    lists, in order, whatever instance (and so whatever configuration) runs
    it; the step declares no argument and no constraint; the scenario's
    documents give the scenario's result; the metadata of any two executions
    is the same empty dict. *)
Theorem flatten_execute_concatenates
    (self self' : Flatten.Flattened) (documents : list Flatten.document)
    (inputs : gmap string (list Flatten.document)) :
  Flatten.execute self (<[ "documents" := documents ]> inputs)
  = Return ((fun document => concat document) <$> documents) /\
  Flatten.execute self inputs = Flatten.execute self' inputs /\
  Flatten.execute self {[ "documents" := [[["a"; "b"]; ["c"]]; [["d"]]] ]}
  = Return [["a"; "b"; "c"]; ["d"]] /\
  Flatten.get_arguments = ∅ /\
  Flatten.get_constraints = [] /\
  Flatten.get_checkpoint_metadata self = Flatten.get_checkpoint_metadata self' /\
  Flatten.get_checkpoint_metadata self = PDict ∅.
Proof.
  split; [ | done ].
  unfold Flatten.execute. by rewrite lookup_insert_eq.
Qed.

(** * The sparse-array step *)

(** ** The array the constructor builds *)

Section SparseConstructor.

Import Scipy.

Lemma foldl_max_le (value : Z) (values : list Z) :
  value <= foldl Z.max value values /\
  Forall (fun v => v <= foldl Z.max value values) values.
Proof.
  revert value. induction values as [ | v rest IH ]; intros value; simpl.
  - split; [ lia | constructor ].
  - destruct (IH (Z.max value v)) as [Hle Hall].
    split; [ lia | ]. constructor; [ lia | done ].
Qed.

Lemma foldl_max_elem (value : Z) (values : list Z) :
  foldl Z.max value values ∈ value :: values.
Proof.
  revert value. induction values as [ | v rest IH ]; intros value; simpl.
  - by left.
  - specialize (IH (Z.max value v)).
    apply elem_of_cons in IH as [E | Hin].
    + rewrite E. destruct (Z.max_spec value v) as [[_ ->] | [_ ->]].
      * right. by left.
      * by left.
    + right. by right.
Qed.

Lemma maximum_bound (values : list Z) (v : Z) :
  v ∈ values -> v <= maximum values.
Proof.
  destruct values as [ | value rest ]; [ by intros ?%elem_of_nil | ].
  simpl. destruct (foldl_max_le value rest) as [Hle Hall].
  intros [-> | Hin]%elem_of_cons; [ done | ].
  by apply (proj1 (Forall_forall _ _) Hall).
Qed.

Lemma maximum_elem (values : list Z) :
  values <> [] -> maximum values ∈ values.
Proof.
  destruct values as [ | value rest ]; [ done | ].
  intros _. apply foldl_max_elem.
Qed.

Lemma int_dtype_int64 (value : Z) :
  int_dtype value = Int64 <-> in_int64 value.
Proof.
  unfold int_dtype, in_int64.
  destruct (Z.leb_spec (- 2 ^ 63) value), (Z.ltb_spec value (2 ^ 63)); simpl;
    try (split; [ | lia ]);
    try (destruct (Z.leb_spec (2 ^ 63) value), (Z.ltb_spec value (2 ^ 64));
         simpl; try done);
    try lia; try done.
Qed.

Lemma foldl_promote_int64 (d : dtype) (values : list Z) :
  foldl (fun d v => promote d (int_dtype v)) d values = Int64 <->
  d = Int64 /\ Forall in_int64 values.
Proof.
  revert d. induction values as [ | v rest IH ]; intros d; simpl.
  - split; [ by intros -> | by intros [-> _] ].
  - rewrite IH, Forall_cons, <- int_dtype_int64.
    split.
    + intros [Hp Hall]. by destruct d, (int_dtype v).
    + by intros [-> [-> Hall]].
Qed.

Lemma array_dtype_int64 (values : list Z) :
  array_dtype values = Int64 <-> values <> [] /\ Forall in_int64 values.
Proof.
  destruct values as [ | v rest ]; simpl.
  - split; [ done | by intros [? _] ].
  - rewrite foldl_promote_int64, Forall_cons, int_dtype_int64.
    split; [ by intros [? ?] | by intros [_ [? ?]] ].
Qed.

Lemma wrap_add_l (d : dtype) (a b : Z) :
  wrap d (wrap d a + b) = wrap d (a + b).
Proof.
  assert (forall x y, (x mod 2 ^ 64 + y) mod 2 ^ 64 = (x + y) mod 2 ^ 64)
    as Hmod by (intros x y; by rewrite Z.add_mod_idemp_l).
  destruct d; unfold wrap; try apply Hmod;
    (replace ((a + 2 ^ 63) mod 2 ^ 64 - 2 ^ 63 + b + 2 ^ 63)
       with ((a + 2 ^ 63) mod 2 ^ 64 + b) by lia;
     rewrite Hmod; do 2 f_equal; lia).
Qed.

Lemma values_at_cons (position : Z * Z) (item : Z * (Z * Z))
    (rest : list (Z * (Z * Z))) :
  values_at position (item :: rest)
  = if bool_decide (item.2 = position)
    then item.1 :: values_at position rest
    else values_at position rest.
Proof. unfold values_at. simpl. by destruct (bool_decide _). Qed.

Lemma values_at_app (position : Z * Z) (l1 l2 : list (Z * (Z * Z))) :
  values_at position (l1 ++ l2)
  = values_at position l1 ++ values_at position l2.
Proof. apply omap_app. Qed.

Lemma sum_duplicates_lookup (d : dtype) (items : list (Z * (Z * Z)))
    (entries : gmap (Z * Z) Z) (position : Z * Z) :
  foldl (add_entry d) entries items !! position
  = match values_at position items with
    | [] => entries !! position
    | values =>
        Some (wrap d (default 0 (entries !! position) + total values))
    end.
Proof.
  revert entries.
  induction items as [ | item rest IH ]; intros entries; [ done | ].
  simpl foldl. rewrite IH, values_at_cons. unfold add_entry.
  destruct (bool_decide_reflect (item.2 = position)) as [-> | Hne].
  - rewrite lookup_insert_eq. simpl.
    destruct (values_at position rest) as [ | v vs ].
    + do 2 f_equal. unfold total. simpl. lia.
    + rewrite wrap_add_l. do 2 f_equal. unfold total. simpl. lia.
  - by rewrite lookup_insert_ne.
Qed.

Lemma sum_duplicates_dom (d : dtype) (items : list (Z * (Z * Z)))
    (entries : gmap (Z * Z) Z) :
  dom (foldl (add_entry d) entries items)
  = dom entries ∪ list_to_set (items.*2).
Proof.
  revert entries.
  induction items as [ | item rest IH ]; intros entries; simpl.
  - symmetry. apply (right_id_L ∅ (∪)).
  - rewrite IH. unfold add_entry. rewrite dom_insert_L.
    by rewrite (comm_L (∪) {[ item.2 ]} (dom entries)), <- (assoc_L (∪)).
Qed.

Lemma check_returns {A} (ok : bool) (e : exn) (k : unit -> outcome A)
    (a : A) :
  check ok e ≫= k = Return a -> ok = true /\ k tt = Return a.
Proof. by destruct ok. Qed.

Lemma extent_returns {A} (index : list Z) (k : Z -> outcome A) (a : A) :
  extent index ≫= k = Return a -> k (maximum index + 1) = Return a.
Proof. unfold extent. by destruct (array_dtype index). Qed.

(** What a call of the constructor that returns says about its arguments and
    about the array. *)
Lemma make_csr_array_returns (data row_ind col_ind : list Z)
    (array : csr_array) :
  make_csr_array data row_ind col_ind = Return array ->
  row_ind <> [] /\
  length row_ind = length data /\
  length col_ind = length data /\
  Forall (Z.le 0) row_ind /\
  Forall (Z.le 0) col_ind /\
  shape array = (maximum row_ind + 1, maximum col_ind + 1) /\
  positions array = list_to_set (zip row_ind col_ind).
Proof.
  unfold make_csr_array.
  destruct row_ind as [ | r rows ]; [ done | ].
  destruct col_ind as [ | c cols ]; [ done | ].
  set (row_ind := r :: rows). set (col_ind := c :: cols).
  intros H.
  apply extent_returns in H. apply extent_returns in H.
  apply check_returns in H as [_ H].
  apply check_returns in H as [_ H].
  apply check_returns in H as [_ H].
  apply check_returns in H as [Hlen H].
  apply check_returns in H as [Hrows H].
  apply check_returns in H as [Hcols H].
  apply andb_true_iff in Hlen as [Hr Hc].
  apply bool_decide_eq_true_1 in Hr, Hc.
  injection H as <-.
  split; [ done | ]. split; [ done | ]. split; [ done | ].
  split; [ apply Forall_forall; intros x Hx%list_elem_of_In;
           apply Z.leb_le; by apply (proj1 (forallb_forall _ _) Hrows) | ].
  split; [ apply Forall_forall; intros x Hx%list_elem_of_In;
           apply Z.leb_le; by apply (proj1 (forallb_forall _ _) Hcols) | ].
  split; [ done | ].
  unfold positions. simpl.
  assert (dom (sum_duplicates (array_dtype data)
                 (zip data (zip row_ind col_ind)))
          = list_to_set (zip row_ind col_ind)) as Hdom.
  { unfold sum_duplicates. rewrite sum_duplicates_dom, dom_empty_L.
    rewrite snd_zip; [ apply (left_id_L ∅ (∪)) | ].
    rewrite length_zip_with. lia. }
  by destruct (array_dtype data).
Qed.

(** Counts of 64 bits at indices that are not negative and leave room for
    the extent: the constructor returns the array of the summed counts. *)
Lemma make_csr_array_int64 (data row_ind col_ind : list Z) :
  row_ind <> [] ->
  length row_ind = length data ->
  length col_ind = length data ->
  Forall in_int64 data ->
  Forall (fun index => 0 <= index < 2 ^ 63 - 1) row_ind ->
  Forall (fun index => 0 <= index < 2 ^ 63 - 1) col_ind ->
  make_csr_array data row_ind col_ind
  = Return {| shape := (maximum row_ind + 1, maximum col_ind + 1);
              dtype_of := Int64;
              stored := Integers
                          (sum_duplicates Int64
                             (zip data (zip row_ind col_ind))) |}.
Proof.
  intros Hne Hr Hc Hdata Hrows Hcols.
  assert (col_ind <> []) as Hne'.
  { destruct row_ind; [ done | ]. destruct col_ind; [ | done ].
    destruct data; discriminate. }
  assert (data <> []) as Hne''.
  { destruct row_ind; [ done | ]. by destruct data. }
  assert (forall index, index <> [] ->
            Forall (fun i => 0 <= i < 2 ^ 63 - 1) index ->
            array_dtype index = Int64 /\ 0 <= maximum index < 2 ^ 63 - 1)
    as Hindex.
  { intros index Hn Hall. split.
    - apply array_dtype_int64. split; [ done | ].
      eapply Forall_impl; [ exact Hall | ]. unfold in_int64. simpl. lia.
    - by apply (proj1 (Forall_forall _ _) Hall), maximum_elem. }
  destruct (Hindex _ Hne Hrows) as [Drows Mrows].
  destruct (Hindex _ Hne' Hcols) as [Dcols Mcols].
  assert (array_dtype data = Int64) as Ddata by by apply array_dtype_int64.
  assert (forall index, Forall (fun i => 0 <= i < 2 ^ 63 - 1) index ->
            forallb (Z.leb 0) index = true) as Hpos.
  { intros index Hall. apply forallb_forall. intros x Hx%list_elem_of_In.
    apply Z.leb_le. apply (proj1 (Forall_forall _ _) Hall) in Hx. lia. }
  pose proof (Hpos _ Hrows) as Prows. pose proof (Hpos _ Hcols) as Pcols.
  unfold make_csr_array, extent.
  destruct row_ind as [ | r rows ]; [ done | ].
  destruct col_ind as [ | c cols ]; [ done | ].
  rewrite Drows, Dcols, Ddata. simpl mbind. unfold outcome_bind, Py.bind.
  simpl in Mrows, Mcols, Prows, Pcols.
  rewrite !bool_decide_eq_true_2 by done.
  rewrite (proj2 (Z.leb_le 0 (foldl Z.max r rows + 1))) by lia.
  rewrite (proj2 (Z.leb_le 0 (foldl Z.max c cols + 1))) by lia.
  rewrite (proj2 (Z.ltb_lt _ _)) by lia.
  by rewrite Prows, Pcols.
Qed.

End SparseConstructor.

(** ** What [execute] hands the constructor *)

Section SparseArray.

Import Dict2Array.

Variable word_to_index : gmap string Z.

Let missing (token : string) : bool :=
  bool_decide (word_to_index !! token = None).

Lemma find_app {A} (f : A -> bool) (l1 l2 : list A) :
  List.find f (l1 ++ l2)
  = match List.find f l1 with
    | Some x => Some x
    | None => List.find f l2
    end.
Proof.
  induction l1 as [ | x l1 IH ]; simpl; [ done | ]. by destruct (f x).
Qed.

(** After [simpl], write the list operations of stdpp as [<$>] and [omap]
    again. *)
Ltac refold_list :=
  repeat match goal with
    | |- context [list_fmap ?A ?B ?f ?l] =>
        change (list_fmap A B f l) with (f <$> l)
    | |- context [list_omap ?A ?B ?f ?l] =>
        change (list_omap A B f l) with (omap f l)
    end.

Lemma scan_document_spec (row : nat) (items : document) (acc : triplets) :
  scan_document word_to_index row items acc
  = match List.find missing (items.*1) with
    | Some token => Raise (ValueError (no_entry token))
    | None =>
        Return {| data := data acc ++ items.*2;
                  row_ind := row_ind acc ++ replicate (length items) row;
                  col_ind := col_ind acc
                             ++ omap (fun token => word_to_index !! token)
                                  (items.*1) |}
    end.
Proof.
  revert acc.
  induction items as [ | [token col] rest IH ]; intros acc; simpl.
  - rewrite !app_nil_r. by destruct acc.
  - unfold missing at 1.
    destruct (word_to_index !! token) as [index | ] eqn:E; simpl.
    + rewrite IH. simpl. refold_list.
      destruct (List.find missing (rest.*1)); [ done | ].
      by rewrite <- !app_assoc.
    + done.
Qed.

Lemma scan_documents_spec (row : nat) (documents : list document)
    (acc : triplets) :
  scan_documents word_to_index row documents acc
  = match List.find missing (tokens documents) with
    | Some token => Raise (ValueError (no_entry token))
    | None =>
        Return {| data := data acc ++ counts documents;
                  row_ind := row_ind acc ++ rows_from row documents;
                  col_ind := col_ind acc
                             ++ omap (fun token => word_to_index !! token)
                                  (tokens documents) |}
    end.
Proof.
  revert row acc.
  induction documents as [ | items rest IH ]; intros row acc; simpl.
  - rewrite !app_nil_r. by destruct acc.
  - rewrite scan_document_spec.
    unfold tokens, counts. rewrite !fmap_cons. simpl concat.
    rewrite find_app.
    destruct (List.find missing (items.*1)); [ done | ].
    simpl. rewrite IH. simpl. refold_list.
    fold (tokens rest). fold (counts rest).
    destruct (List.find missing (tokens rest)); [ done | ].
    by rewrite omap_app, !app_assoc.
Qed.

Lemma execute_spec (documents : list document) :
  execute word_to_index documents
  = match first_missing word_to_index documents with
    | Some token => Raise (ValueError (no_entry token))
    | None =>
        Scipy.make_csr_array (counts documents)
          (Z.of_nat <$> rows_from 0 documents)
          (indices word_to_index documents)
    end.
Proof.
  unfold execute, first_missing, indices. rewrite scan_documents_spec.
  fold missing. by destruct (List.find missing (tokens documents)).
Qed.

Lemma first_missing_some (documents : list document) (token : string) :
  first_missing word_to_index documents = Some token ->
  token ∈ tokens documents /\ word_to_index !! token = None.
Proof.
  unfold first_missing. intros [Hin Hmiss]%find_some. split.
  - by apply list_elem_of_In.
  - by apply bool_decide_eq_true_1 in Hmiss.
Qed.

Lemma first_missing_none (documents : list document) :
  first_missing word_to_index documents = None <->
  forall token, token ∈ tokens documents -> is_Some (word_to_index !! token).
Proof.
  unfold first_missing. split.
  - intros Hnone token Hin. apply list_elem_of_In in Hin.
    pose proof (find_none _ _ Hnone token Hin) as Hf. simpl in Hf.
    apply bool_decide_eq_false_1 in Hf.
    by destruct (word_to_index !! token); [ eauto | ].
  - intros Hall.
    destruct (List.find _ (tokens documents)) as [token | ] eqn:F; [ | done ].
    apply find_some in F as [Hin Hmiss]. apply list_elem_of_In in Hin.
    apply bool_decide_eq_true_1 in Hmiss.
    destruct (Hall token Hin) as [index E]. congruence.
Qed.

Lemma rows_from_length (row : nat) (documents : list document) :
  length (rows_from row documents) = length (tokens documents).
Proof.
  revert row. induction documents as [ | items rest IH ]; intros row;
    [ done | ].
  unfold tokens. simpl. rewrite !length_app, length_replicate, length_fmap.
  f_equal. apply IH.
Qed.

Lemma omap_lookup_all (ts : list string) :
  (forall token, token ∈ ts -> is_Some (word_to_index !! token)) ->
  Some <$> omap (fun token => word_to_index !! token) ts
  = (fun token => word_to_index !! token) <$> ts.
Proof.
  induction ts as [ | token ts IH ]; intros Hall; [ done | ].
  simpl. destruct (Hall token) as [index E]; [ by left | ].
  rewrite E. simpl. f_equal. apply IH. intros t Ht. apply Hall. by right.
Qed.

Lemma rows_from_bounds (row : nat) (documents : list document) :
  Forall (fun r => (row <= r < row + length documents)%nat)
    (rows_from row documents).
Proof.
  revert row. induction documents as [ | items rest IH ]; intros row; simpl.
  - constructor.
  - apply Forall_app. split.
    + apply Forall_forall. intros r Hr.
      apply elem_of_replicate in Hr as [-> _]. lia.
    + eapply Forall_impl; [ apply IH | ]. simpl. intros r Hr. lia.
Qed.

Lemma rows_from_app (row : nat) (l1 l2 : list document) :
  rows_from row (l1 ++ l2)
  = rows_from row l1 ++ rows_from (row + length l1) l2.
Proof.
  revert row. induction l1 as [ | items rest IH ]; intros row; simpl.
  - by rewrite Nat.add_0_r.
  - rewrite IH, <- app_assoc. do 3 f_equal. lia.
Qed.

Lemma counts_length (documents : list document) :
  length (counts documents) = length (tokens documents).
Proof.
  unfold counts, tokens.
  induction documents as [ | items rest IH ]; [ done | ].
  simpl. rewrite !length_app, !length_fmap. by f_equal.
Qed.

Lemma indices_length (documents : list document) :
  (forall token, token ∈ tokens documents ->
                 is_Some (word_to_index !! token)) ->
  length (indices word_to_index documents) = length (tokens documents).
Proof.
  intros Hall. unfold indices.
  rewrite <- (length_fmap Some), omap_lookup_all by done.
  by rewrite length_fmap.
Qed.

(** The counts one document puts at a position. *)
Lemma values_at_document (row : nat) (items : document) (r : nat) (c : Z) :
  (forall token, token ∈ items.*1 -> is_Some (word_to_index !! token)) ->
  values_at (Z.of_nat r, c)
    (zip (items.*2)
       (zip (Z.of_nat <$> replicate (length items) row)
          (omap (fun token => word_to_index !! token) (items.*1))))
  = if decide (r = row) then counts_at word_to_index [items] 0 c else [].
Proof.
  unfold counts_at. simpl.
  induction items as [ | [token count] rest IH ]; intros Hall.
  - by destruct (decide (r = row)).
  - destruct (Hall token) as [index E]; [ by left | ].
    specialize (IH (fun t Ht => Hall t (list_elem_of_further _ _ _ Ht))).
    simpl. rewrite E. simpl. refold_list.
    rewrite values_at_cons, IH. simpl.
    destruct (decide (r = row)) as [-> | Hne].
    + rewrite (bool_decide_ext ((Z.of_nat row, index) = (Z.of_nat row, c))
                 (Some index = Some c)) by (split; congruence).
      by destruct (bool_decide (Some index = Some c)).
    + rewrite bool_decide_eq_false_2; [ done | ]. intros [= H _]. lia.
Qed.

(** The counts the documents put at a position. *)
Lemma values_at_documents (row : nat) (documents : list document)
    (r : nat) (c : Z) :
  (forall token, token ∈ tokens documents ->
                 is_Some (word_to_index !! token)) ->
  values_at (Z.of_nat r, c)
    (zip (counts documents)
       (zip (Z.of_nat <$> rows_from row documents)
          (indices word_to_index documents)))
  = if decide (row <= r)%nat
    then counts_at word_to_index documents (r - row) c
    else [].
Proof.
  revert row.
  induction documents as [ | items rest IH ]; intros row Hall.
  - unfold counts_at. simpl. by destruct (decide (row <= r)%nat).
  - assert (forall token, token ∈ items.*1 ->
                          is_Some (word_to_index !! token)) as Hitems.
    { intros t Ht. apply Hall. unfold tokens. simpl.
      apply elem_of_app. by left. }
    assert (forall token, token ∈ tokens rest ->
                          is_Some (word_to_index !! token)) as Hrest.
    { intros t Ht. apply Hall. unfold tokens. simpl.
      apply elem_of_app. by right. }
    assert (length (omap (fun token => word_to_index !! token) (items.*1))
            = length items) as Hlen.
    { rewrite <- (length_fmap Some), omap_lookup_all by done.
      by rewrite !length_fmap. }
    unfold counts, indices, tokens. rewrite !fmap_cons.
    simpl concat. simpl rows_from.
    rewrite omap_app, fmap_app.
    rewrite !zip_with_app, values_at_app;
      try (rewrite ?length_zip_with, ?length_fmap, ?length_replicate, ?Hlen;
           lia).
    fold (counts rest). fold (tokens rest).
    fold (indices word_to_index rest).
    rewrite values_at_document, (IH (S row)) by done.
    unfold counts_at.
    destruct (decide (r = row)) as [-> | Hne].
    + rewrite decide_False, decide_True by lia.
      rewrite Nat.sub_diag. simpl. by rewrite app_nil_r.
    + destruct (decide (S row <= r)%nat) as [Hle | Hgt].
      * rewrite decide_True by lia.
        replace (r - row)%nat with (S (r - S row)) by lia. done.
      * by rewrite decide_False by lia.
Qed.

End SparseArray.

(** C7, as the code has it.  When some document holds a token without an
    index, [execute] raises [ValueError] with the message naming the first
    such token in iteration order, and returns nothing.  When every token
    has an index, there is at least one token, and counts and indices are
    integers the array can hold (counts of 64 bits, indices that are not
    negative and below 2^63 - 1; a Python list has fewer than 2^63 items),
    [execute] returns a sparse array: its shape is one more than the largest
    row and the largest index in use, it stores the positions (row, index)
    of the tokens, and at each the sum, in 64 bits, of the counts of the
    tokens of that document with that index. *)
Theorem sparse_array_execute_cases
    (word_to_index : gmap string Z)
    (documents : list Dict2Array.document) :
  (forall token,
     first_missing word_to_index documents = Some token ->
     token ∈ tokens documents /\
     word_to_index !! token = None /\
     Dict2Array.execute word_to_index documents
     = Raise (ValueError ("Dictionary has no entry for word: " +:+ token))) /\
  ((exists token, token ∈ tokens documents /\ word_to_index !! token = None) ->
   exists token,
     first_missing word_to_index documents = Some token /\
     ~ Py.returns (Dict2Array.execute word_to_index documents)) /\
  ((forall token, token ∈ tokens documents ->
      exists index, word_to_index !! token = Some index /\
                    0 <= index < 2 ^ 63 - 1) ->
   tokens documents <> [] ->
   Forall in_int64 (counts documents) ->
   Z.of_nat (length documents) < 2 ^ 63 ->
   exists array,
     Dict2Array.execute word_to_index documents = Return array /\
     Scipy.shape array
     = (Scipy.maximum (Z.of_nat <$> rows_from 0 documents) + 1,
        Scipy.maximum (indices word_to_index documents) + 1) /\
     Scipy.dtype_of array = Scipy.Int64 /\
     Scipy.positions array
     = list_to_set (zip (Z.of_nat <$> rows_from 0 documents)
                      (indices word_to_index documents)) /\
     forall (row : nat) (column : Z),
       Scipy.entry array (Z.of_nat row, column)
       = match counts_at word_to_index documents row column with
         | [] => None
         | values => Some (Scipy.wrap Scipy.Int64 (total values))
         end).
Proof.
  split; [ | split ].
  - intros token F. destruct (first_missing_some _ _ _ F) as [Hin Hmiss].
    repeat split; [ done .. | ]. by rewrite execute_spec, F.
  - intros (token & Hin & Hmiss).
    destruct (first_missing word_to_index documents) as [first | ] eqn:F.
    + exists first. split; [ done | ].
      rewrite execute_spec, F. by intros [array E].
    + destruct (proj1 (first_missing_none _ _) F token Hin) as [index E].
      congruence.
  - intros Hindex Hne Hcounts Hdocs.
    assert (forall token, token ∈ tokens documents ->
                          is_Some (word_to_index !! token)) as Hall.
    { intros token Hin. destruct (Hindex token Hin) as (index & E & _).
      eauto. }
    pose proof (rows_from_length 0 documents) as Lrows.
    pose proof (counts_length documents) as Lcounts.
    pose proof (indices_length word_to_index documents Hall) as Lcols.
    rewrite execute_spec, (proj2 (first_missing_none _ _) Hall).
    rewrite make_csr_array_int64.
    + eexists. split; [ reflexivity | ].
      split; [ done | ]. split; [ done | ]. split.
      * unfold Scipy.positions. simpl. unfold Scipy.sum_duplicates.
        rewrite sum_duplicates_dom, dom_empty_L, snd_zip.
        -- apply (left_id_L ∅ (∪)).
        -- rewrite length_zip_with, length_fmap. lia.
      * intros row column. unfold Scipy.entry. simpl.
        unfold Scipy.sum_duplicates.
        rewrite sum_duplicates_lookup, (values_at_documents _ 0) by done.
        rewrite decide_True, Nat.sub_0_r by lia.
        rewrite lookup_empty. simpl.
        by destruct (counts_at word_to_index documents row column).
    + intros E. apply fmap_nil_inv in E. rewrite E in Lrows.
      by destruct (tokens documents).
    + rewrite length_fmap. lia.
    + lia.
    + done.
    + apply Forall_fmap. eapply Forall_impl; [ apply rows_from_bounds | ].
      simpl. lia.
    + unfold indices. apply Forall_forall. intros index Hin.
      apply list_elem_of_omap in Hin as (token & Hin & E).
      destruct (Hindex token Hin) as (index' & E' & Hrange). congruence.
Qed.

(** The scenario: the index of [a] and [b], and a document with [c]. *)
Example sparse_array_scenario :
  Dict2Array.execute ab_index [[("a", 2); ("c", 1)]; [("b", 5)]]
  = Raise (ValueError "Dictionary has no entry for word: c").
Proof. vm_compute. reflexivity. Qed.

(** An array that is built: trailing documents without tokens add no row,
    and two tokens of one document with one index add up. *)
Example sparse_array_built :
  Dict2Array.execute ab_index [[("a", 2); ("b", 1)]; []; [("b", 5)]; []]
  = Return {| Scipy.shape := (3, 2);
              Scipy.dtype_of := Scipy.Int64;
              Scipy.stored :=
                Scipy.Integers {[ (0, 0) := 2; (0, 1) := 1; (2, 1) := 5 ]} |} /\
  Dict2Array.execute {[ "a" := 0; "b" := 0 ]} [[("a", 2); ("b", 1)]]
  = Return {| Scipy.shape := (1, 1);
              Scipy.dtype_of := Scipy.Int64;
              Scipy.stored := Scipy.Integers {[ (0, 0) := 3 ]} |}.
Proof. split; vm_compute; reflexivity. Qed.

(** C7 fails as stated: every token is in the mapping, and [execute]
    raises.  With no document at all, or with one empty document, the
    constructor cannot infer a shape from empty index lists.  A count of
    2^64 fits no element type a sparse array supports.  A negative index and
    an index of 2^63 are refused as well. *)
Lemma sparse_array_inputs_the_constructor_refuses :
  (forall token, token ∈ tokens [] -> is_Some (ab_index !! token)) /\
  Dict2Array.execute ab_index []
  = Raise (ValueError "cannot infer dimensions from zero sized index arrays") /\
  Dict2Array.execute ab_index [[]]
  = Raise (ValueError "cannot infer dimensions from zero sized index arrays") /\
  (ab_index !! "a" = Some 0 /\
   exists msg,
     Dict2Array.execute ab_index [[("a", 2 ^ 64)]] = Raise (ValueError msg)) /\
  (exists msg,
     Dict2Array.execute {[ "a" := -1 ]} [[("a", 1)]]
     = Raise (ValueError msg)) /\
  (exists e,
     Dict2Array.execute {[ "a" := 2 ^ 63 ]} [[("a", 1)]] = Raise e).
Proof.
  split; [ intros token Hin; by apply elem_of_nil in Hin | ].
  split; [ vm_compute; reflexivity | ].
  split; [ vm_compute; reflexivity | ].
  split; [ split; [ reflexivity | eexists; vm_compute; reflexivity ] | ].
  split; eexists; vm_compute; reflexivity.
Qed.

(** * Identity fingerprints *)

Section Fingerprints.

Import Func.

Lemma decorator_hash_source py_hash args func text :
  source_text func = Some text ->
  _hash (pipeline_step py_hash args func) = Some (py_hash text).
Proof. intros E. unfold pipeline_step. by rewrite decorator_hash, E. Qed.

End Fingerprints.

(** C6 fails on the code.  The fingerprint is [hash(source)], and [hash] on
    strings is keyed by the secret of the interpreter process.  The same
    function, with the same source text, built in a process started with
    [PYTHONHASHSEED=1] and in one started with [PYTHONHASHSEED=2] gets two
    different fingerprints, and the second build rejects the metadata the
    first one stored. *)
Theorem identical_source_gets_another_fingerprint_in_another_process :
  (forall seed,
     Func._hash (built_in_process seed)
     = Some (CPython.str_hash (CPython.seeded seed) job_source)) /\
  Func._function (built_in_process 1) = Func._function (built_in_process 2) /\
  Func.source_text (Func._function (built_in_process 1)) = Some job_source /\
  Func._hash (built_in_process 1) = Some 6751350644755081165 /\
  Func._hash (built_in_process 2) = Some (- 5904448030583396217) /\
  Func._hash (built_in_process 1) <> Func._hash (built_in_process 2) /\
  Func.checkpoint_is_valid (built_in_process 2)
    (Func.get_checkpoint_metadata (built_in_process 1))
  = Return false.
Proof.
  assert (forall seed,
            Func._hash (built_in_process seed)
            = Some (CPython.str_hash (CPython.seeded seed) job_source))
    as Hhash.
  { intros seed. by apply decorator_hash_source. }
  assert (CPython.str_hash (CPython.seeded 1) job_source
          = 6751350644755081165) as H1 by (vm_compute; reflexivity).
  assert (CPython.str_hash (CPython.seeded 2) job_source
          = - 5904448030583396217) as H2 by (vm_compute; reflexivity).
  split; [ done | ]. split; [ done | ]. split; [ done | ].
  rewrite !Hhash, H1, H2.
  split; [ done | ]. split; [ done | ]. split; [ done | ].
  unfold Func.checkpoint_is_valid, Func.get_checkpoint_metadata.
  rewrite !Hhash, H1, H2. vm_compute. reflexivity.
Qed.

(** * Persistence round trips *)

Section Persistence.

Lemma write_then_read (path : string) (content : list Byte.byte)
    (fs : filesystem) :
  (fs' ← Os.write_file path content fs; Os.read_file path fs')
  = Return content.
Proof.
  unfold Os.write_file, Os.read_file. simpl. by rewrite lookup_insert_eq.
Qed.

Lemma string_length_app (s1 s2 : string) :
  String.length (s1 +:+ s2) = (String.length s1 + String.length s2)%nat.
Proof. induction s1 as [ | c s1 IH ]; simpl; [ done | ]. by rewrite IH. Qed.

(** What [pickle] writes at a path reads back as the object. *)
Lemma pickle_round_trip `{Lossless A} (path : string) (result : A)
    (fs : filesystem) :
  (fs' ← Pickle.dump_to path result fs; Pickle.load_from path fs')
  = Return result.
Proof.
  unfold Pickle.dump_to, Pickle.load_from, Os.write_file, Os.read_file.
  simpl. rewrite lookup_insert_eq. simpl. apply loads_dumps.
Qed.

#[export] Instance string_bytes_lossless : Lossless string.
Proof.
  intros s. simpl. by rewrite String.string_of_list_byte_of_string.
Qed.

Example string_round_trip :
  (fs' ← Pickle.dump_to "checkpoint" "tokens" ∅;
   Pickle.load_from "checkpoint" fs')
  = Return "tokens".
Proof. apply pickle_round_trip. Qed.

(** The adapter with [pickle_saver] and [pickle_loader]. *)
Lemma adapter_pickle_round_trip `{Lossless pyobj}
    (cls : Func.FunctionStepWrapper) (path : string) (result : pyobj)
    (fs : filesystem) :
  Func._save_function cls = Func.pickle_saver ->
  Func._load_function cls = Func.pickle_loader ->
  (fs' ← Func.save_result cls path result fs; Func.load_result cls path fs')
  = Return result.
Proof.
  intros Hsave Hload. unfold Func.save_result, Func.load_result.
  rewrite Hsave, Hload. apply pickle_round_trip.
Qed.

(** The flatten step: both sides join the path with [main.pickle]. *)
Lemma flatten_round_trip `{Lossless (list Flatten.flat_document)}
    (path : string) (result : list Flatten.flat_document) (fs : filesystem) :
  (fs' ← Flatten.save_result path result fs; Flatten.load_result path fs')
  = Return result.
Proof. apply pickle_round_trip. Qed.

(** The sparse-array step. *)
Lemma sparse_array_round_trip `{Lossless Scipy.csr_array}
    (path : string) (result : Scipy.csr_array) (fs : filesystem) :
  (fs' ← Dict2Array.save_result path result fs;
   Dict2Array.load_result path fs')
  = Return result.
Proof. apply pickle_round_trip. Qed.

(** The word2vec step round-trips at a path that ends with [.npy]. *)
Lemma word2vec_round_trip_npy `{Lossless Numpy.matrix}
    (path : string) (result : Numpy.matrix) (fs : filesystem) :
  Os.endswith path ".npy" = true ->
  (fs' ← Word2Vec.save_result path result fs; Word2Vec.load_result path fs')
  = Return result.
Proof.
  intros Hnpy.
  unfold Word2Vec.save_result, Word2Vec.load_result, Numpy.save, Numpy.load,
    Numpy.save_target, Os.write_file, Os.read_file.
  rewrite Hnpy. simpl. rewrite lookup_insert_eq. simpl. apply loads_dumps.
Qed.

(** At any other path [save_result] writes the file [path.npy], and
    [load_result] looks for [path]: when no such file was there before, the
    load raises. *)
Lemma word2vec_load_misses_saved_file `{Serializer Numpy.matrix}
    (path : string) (result : Numpy.matrix) (fs : filesystem) :
  Os.endswith path ".npy" = false ->
  fs !! path = None ->
  Word2Vec.save_result path result fs
  = Return (<[ path +:+ ".npy" := dumps result ]> fs) /\
  (fs' ← Word2Vec.save_result path result fs; Word2Vec.load_result path fs')
  = Raise (FileNotFoundError path).
Proof.
  intros Hnpy Hfresh.
  unfold Word2Vec.save_result, Word2Vec.load_result, Numpy.save, Numpy.load,
    Numpy.save_target, Os.write_file, Os.read_file.
  rewrite Hnpy. split; [ done | ]. simpl.
  rewrite lookup_insert_ne, Hfresh; [ done | ].
  intros E. apply (f_equal String.length) in E.
  rewrite string_length_app in E. simpl in E. lia.
Qed.

End Persistence.

(** C5 at the word2vec step: saving an array at the location [checkpoint] of
    an empty store writes the file [checkpoint.npy], and loading from the
    same location raises [FileNotFoundError] instead of returning the
    array. *)
Theorem word2vec_load_after_save_raises `{Serializer Numpy.matrix}
    (result : Numpy.matrix) :
  Word2Vec.save_result "checkpoint" result ∅
  = Return {[ "checkpoint.npy" := dumps result ]} /\
  Word2Vec.load_result "checkpoint" {[ "checkpoint.npy" := dumps result ]}
  = Raise (FileNotFoundError "checkpoint") /\
  (fs' ← Word2Vec.save_result "checkpoint" result ∅;
   Word2Vec.load_result "checkpoint" fs')
  = Raise (FileNotFoundError "checkpoint").
Proof.
  assert (Word2Vec.save_result "checkpoint" result ∅
          = Return {[ "checkpoint.npy" := dumps result ]}) as Hsave by done.
  assert (Word2Vec.load_result "checkpoint"
            {[ "checkpoint.npy" := dumps result ]}
          = Raise (FileNotFoundError "checkpoint")) as Hload.
  { unfold Word2Vec.load_result, Numpy.load, Os.read_file.
    by rewrite lookup_singleton_ne. }
  split; [ exact Hsave | split; [ exact Hload | ] ].
  rewrite Hsave. exact Hload.
Qed.

(** * Further properties: saving, overwriting and loading results *)

Lemma bytes_to_positive_to_bytes (p : positive) :
  bytes_to_positive (positive_to_bytes p) = p.
Proof. induction p as [ q IH | q IH | ]; simpl; by rewrite ?IH. Qed.

Lemma coded_lossless `{Countable A} : @Lossless A coded.
Proof.
  intros a. simpl. by rewrite bytes_to_positive_to_bytes, decode_encode.
Qed.

Section SaveLoad.

Context `{Lossless A}.

(** Two saves at [file] and a load after each, in a store [fs]: each load
    returns what the save before it wrote, no other file changes, and
    without a file at [file] the load raises. *)
Lemma pickle_save_load (file : string) (first second : A) (fs : filesystem) :
  exists fs1 fs2,
    Pickle.dump_to file first fs = Return fs1 /\
    Pickle.load_from file fs1 = Return first /\
    Pickle.dump_to file second fs1 = Return fs2 /\
    Pickle.load_from file fs2 = Return second /\
    (forall other, other <> file -> fs2 !! other = fs !! other) /\
    (fs !! file = None ->
     Pickle.load_from (A := A) file fs = Raise (FileNotFoundError file)).
Proof.
  exists (<[ file := dumps first ]> fs),
    (<[ file := dumps second ]> (<[ file := dumps first ]> fs)).
  unfold Pickle.dump_to, Pickle.load_from, Os.write_file, Os.read_file.
  repeat split.
  - rewrite lookup_insert_eq. simpl. apply loads_dumps.
  - rewrite lookup_insert_eq. simpl. apply loads_dumps.
  - intros other Hother. by rewrite !lookup_insert_ne.
  - by intros ->.
Qed.

End SaveLoad.

(** X1.  A class built with [pickle_saver] and [pickle_loader]: what
    [save_result] writes at a path, [load_result] returns from it; a second
    save replaces the first; the files at other paths stay as they were; and
    loading from a path without a file raises [FileNotFoundError]. *)
Theorem adapter_pickle_save_load `{Lossless pyobj}
    (py_hash : string -> Z) (args : Func.pipeline_step_args)
    (func : Func.pyfunction) (path : string) (first second : pyobj)
    (fs : filesystem) :
  Func.save_func args = Func.pickle_saver ->
  Func.load_func args = Func.pickle_loader ->
  let cls := Func.pipeline_step py_hash args func in
  exists fs1 fs2,
    Func.save_result cls path first fs = Return fs1 /\
    Func.load_result cls path fs1 = Return first /\
    Func.save_result cls path second fs1 = Return fs2 /\
    Func.load_result cls path fs2 = Return second /\
    (forall other, other <> path -> fs2 !! other = fs !! other) /\
    (fs !! path = None ->
     Func.load_result cls path fs = Raise (FileNotFoundError path)).
Proof.
  intros Hsave Hload cls.
  unfold Func.save_result, Func.load_result, cls, Func.pipeline_step,
    Func.decorator. simpl. rewrite Hsave, Hload.
  apply pickle_save_load.
Qed.

Lemma adapter_pickle_save_load_witness :
  exists fs1 fs2,
    Func.save_result
      (Func.pipeline_step sample_hash (@pickle_args coded true)
         (function_with_source (Some "pass")))
      "checkpoint" (PList [PInt 1; PStr "a"]) ∅ = Return fs1 /\
    Func.load_result
      (Func.pipeline_step sample_hash (@pickle_args coded true)
         (function_with_source (Some "pass")))
      "checkpoint" fs1 = Return (PList [PInt 1; PStr "a"]) /\
    Func.save_result
      (Func.pipeline_step sample_hash (@pickle_args coded true)
         (function_with_source (Some "pass")))
      "checkpoint" (Atom PNone) fs1 = Return fs2 /\
    Func.load_result
      (Func.pipeline_step sample_hash (@pickle_args coded true)
         (function_with_source (Some "pass")))
      "checkpoint" fs2 = Return (Atom PNone) /\
    (forall other, other <> "checkpoint" -> fs2 !! other = (∅ : filesystem) !! other) /\
    ((∅ : filesystem) !! "checkpoint" = None ->
     Func.load_result
       (Func.pipeline_step sample_hash (@pickle_args coded true)
          (function_with_source (Some "pass")))
       "checkpoint" ∅ = Raise (FileNotFoundError "checkpoint")).
Proof.
  exact (@adapter_pickle_save_load coded coded_lossless sample_hash
           (@pickle_args coded true) (function_with_source (Some "pass"))
           "checkpoint" (PList [PInt 1; PStr "a"]) (Atom PNone) ∅
           eq_refl eq_refl).
Defined.

(** X2.  The flatten step keeps its result in the file [main.pickle] of the
    location it is given: a load returns what the last save wrote, the other
    files stay as they were, and without that file the load raises
    [FileNotFoundError] for it. *)
Theorem flatten_save_load `{Lossless (list Flatten.flat_document)}
    (path : string) (first second : list Flatten.flat_document)
    (fs : filesystem) :
  let file := Os.path_join path "main.pickle" in
  exists fs1 fs2,
    Flatten.save_result path first fs = Return fs1 /\
    Flatten.load_result path fs1 = Return first /\
    Flatten.save_result path second fs1 = Return fs2 /\
    Flatten.load_result path fs2 = Return second /\
    (forall other, other <> file -> fs2 !! other = fs !! other) /\
    (fs !! file = None ->
     Flatten.load_result path fs = Raise (FileNotFoundError file)).
Proof. intros file. apply pickle_save_load. Qed.

Lemma flatten_save_load_witness :
  exists fs1 fs2,
    @Flatten.save_result coded "run/flatten" [["a"; "b"; "c"]; ["d"]] ∅
    = Return fs1 /\
    @Flatten.load_result coded "run/flatten" fs1
    = Return [["a"; "b"; "c"]; ["d"]] /\
    @Flatten.save_result coded "run/flatten" [] fs1 = Return fs2 /\
    @Flatten.load_result coded "run/flatten" fs2 = Return [] /\
    (forall other, other <> "run/flatten/main.pickle" ->
                   fs2 !! other = (∅ : filesystem) !! other) /\
    ((∅ : filesystem) !! "run/flatten/main.pickle" = None ->
     @Flatten.load_result coded "run/flatten" ∅
     = Raise (FileNotFoundError "run/flatten/main.pickle")).
Proof.
  exact (@flatten_save_load coded coded_lossless "run/flatten"
           [["a"; "b"; "c"]; ["d"]] [] ∅).
Defined.

(** X3.  The sparse-array step keeps its result in the file at the path
    itself, with the same guarantees. *)
Theorem sparse_array_save_load `{Lossless Scipy.csr_array}
    (path : string) (first second : Scipy.csr_array) (fs : filesystem) :
  exists fs1 fs2,
    Dict2Array.save_result path first fs = Return fs1 /\
    Dict2Array.load_result path fs1 = Return first /\
    Dict2Array.save_result path second fs1 = Return fs2 /\
    Dict2Array.load_result path fs2 = Return second /\
    (forall other, other <> path -> fs2 !! other = fs !! other) /\
    (fs !! path = None ->
     Dict2Array.load_result path fs = Raise (FileNotFoundError path)).
Proof. apply pickle_save_load. Qed.

Lemma sparse_array_save_load_witness :
  exists fs1 fs2,
    @Dict2Array.save_result coded "checkpoint"
      {| Scipy.shape := (1, 2); Scipy.dtype_of := Scipy.Int64;
         Scipy.stored := Scipy.Integers {[ (0, 0) := 2; (0, 1) := 1 ]} |} ∅
    = Return fs1 /\
    @Dict2Array.load_result coded "checkpoint" fs1
    = Return {| Scipy.shape := (1, 2); Scipy.dtype_of := Scipy.Int64;
         Scipy.stored := Scipy.Integers {[ (0, 0) := 2; (0, 1) := 1 ]} |} /\
    @Dict2Array.save_result coded "checkpoint"
      {| Scipy.shape := (1, 1); Scipy.dtype_of := Scipy.Int64;
         Scipy.stored := Scipy.Integers {[ (0, 0) := 5 ]} |} fs1
    = Return fs2 /\
    @Dict2Array.load_result coded "checkpoint" fs2
    = Return {| Scipy.shape := (1, 1); Scipy.dtype_of := Scipy.Int64;
         Scipy.stored := Scipy.Integers {[ (0, 0) := 5 ]} |} /\
    (forall other, other <> "checkpoint" -> fs2 !! other = (∅ : filesystem) !! other) /\
    ((∅ : filesystem) !! "checkpoint" = None ->
     @Dict2Array.load_result coded "checkpoint" ∅
     = Raise (FileNotFoundError "checkpoint")).
Proof.
  exact (@sparse_array_save_load coded coded_lossless "checkpoint"
           {| Scipy.shape := (1, 2); Scipy.dtype_of := Scipy.Int64;
         Scipy.stored := Scipy.Integers {[ (0, 0) := 2; (0, 1) := 1 ]} |}
           {| Scipy.shape := (1, 1); Scipy.dtype_of := Scipy.Int64;
         Scipy.stored := Scipy.Integers {[ (0, 0) := 5 ]} |} ∅).
Defined.

(** X4.  At a location that ends with [.npy] the word2vec step writes and
    reads one file: a load returns what the last save wrote, and the other
    files stay as they were. *)
Theorem word2vec_save_load_npy `{Lossless Numpy.matrix}
    (path : string) (first second : Numpy.matrix) (fs : filesystem) :
  Os.endswith path ".npy" = true ->
  exists fs1 fs2,
    Word2Vec.save_result path first fs = Return fs1 /\
    Word2Vec.load_result path fs1 = Return first /\
    Word2Vec.save_result path second fs1 = Return fs2 /\
    Word2Vec.load_result path fs2 = Return second /\
    (forall other, other <> path -> fs2 !! other = fs !! other).
Proof.
  intros Hnpy.
  exists (<[ path := dumps first ]> fs),
    (<[ path := dumps second ]> (<[ path := dumps first ]> fs)).
  unfold Word2Vec.save_result, Word2Vec.load_result, Numpy.save, Numpy.load,
    Numpy.save_target, Os.write_file, Os.read_file.
  rewrite Hnpy. repeat split.
  - rewrite lookup_insert_eq. simpl. apply loads_dumps.
  - rewrite lookup_insert_eq. simpl. apply loads_dumps.
  - intros other Hother. by rewrite !lookup_insert_ne.
Qed.

Lemma word2vec_save_load_npy_witness :
  Os.endswith "vectors.npy" ".npy" = true /\
  exists fs1 fs2,
    @Word2Vec.save_result coded "vectors.npy" [[1%float; 2%float]] ∅
    = Return fs1 /\
    @Word2Vec.load_result coded "vectors.npy" fs1
    = Return [[1%float; 2%float]] /\
    @Word2Vec.save_result coded "vectors.npy" [[0.5%float]] fs1
    = Return fs2 /\
    @Word2Vec.load_result coded "vectors.npy" fs2 = Return [[0.5%float]] /\
    (forall other, other <> "vectors.npy" -> fs2 !! other = (∅ : filesystem) !! other).
Proof.
  split; [ reflexivity | ].
  exact (@word2vec_save_load_npy coded coded_lossless "vectors.npy"
           [[1%float; 2%float]] [[0.5%float]] ∅ eq_refl).
Defined.

(** * Further properties: a checkpoint across two builds of the adapter *)

(** X5.  A class asked about the metadata another class stored returns
    [True] exactly when it has a fingerprint and the storing class had the
    same one, and it never raises; for two classes built from functions
    this is: both have source text and the hashes of the texts are equal.
    Entries of the stored dict other than ['function_hash'] are not
    looked at. *)
Theorem adapter_checkpoint_across_builds
    (cls stored_by : Func.FunctionStepWrapper)
    (py_hash : string -> Z) (args1 args2 : Func.pipeline_step_args)
    (func1 func2 : Func.pyfunction) :
  Func.checkpoint_is_valid cls (Func.get_checkpoint_metadata stored_by)
  = Return (bool_decide (is_Some (Func._hash cls) /\
                         Func._hash stored_by = Func._hash cls)) /\
  Func.checkpoint_is_valid (Func.pipeline_step py_hash args2 func2)
    (Func.get_checkpoint_metadata (Func.pipeline_step py_hash args1 func1))
  = Return match Func.source_text func1, Func.source_text func2 with
           | Some text1, Some text2 => Z.eqb (py_hash text2) (py_hash text1)
           | _, _ => false
           end /\
  (forall entries key v,
     key <> "function_hash" ->
     Func.checkpoint_is_valid cls (PDict (<[ key := v ]> entries))
     = Func.checkpoint_is_valid cls (PDict entries)).
Proof.
  assert (forall a b : Func.FunctionStepWrapper,
            Func.checkpoint_is_valid a (Func.get_checkpoint_metadata b)
            = Return match Func._hash b, Func._hash a with
                     | Some y, Some z => Z.eqb z y
                     | _, _ => false
                     end) as Hgen.
  { intros a b. unfold Func.checkpoint_is_valid, Func.get_checkpoint_metadata.
    destruct (Func._hash a) as [z | ]; [ | by destruct (Func._hash b) ].
    rewrite getitem_singleton. by destruct (Func._hash b). }
  split; [ | split ].
  - rewrite Hgen.
    destruct (Func._hash stored_by) as [y | ], (Func._hash cls) as [z | ];
      simpl; f_equal; try done.
    symmetry. destruct (Z.eqb_spec z y) as [-> | N].
    + apply bool_decide_eq_true_2. eauto.
    + apply bool_decide_eq_false_2. intros [_ [= E]]. by subst.
  - rewrite Hgen. unfold Func.pipeline_step. rewrite !decorator_hash.
    by destruct (Func.source_text func1), (Func.source_text func2).
  - intros entries key v Hkey. unfold Func.checkpoint_is_valid, getitem.
    destruct (Func._hash cls); [ | done ]. by rewrite lookup_insert_ne.
Qed.

(** * Further properties: what the flatten step returns *)

Lemma concat_length {A} (parts : list (list A)) :
  length (concat parts) = sum_list (length <$> parts).
Proof.
  induction parts as [ | part parts IH ]; simpl; [ done | ].
  by rewrite length_app, IH.
Qed.

Lemma elem_of_concat {A} (x : A) (parts : list (list A)) :
  x ∈ concat parts <-> exists part, part ∈ parts /\ x ∈ part.
Proof.
  rewrite list_elem_of_In, in_concat. split; intros (part & H1 & H2);
    exists part; by rewrite ?list_elem_of_In in *.
Qed.

(** X6.  Without an input labelled ['documents'] the flatten step raises
    [KeyError('documents')]; with one (other labels are ignored) it returns
    one token list per document, in order: the list at a position has as
    many tokens as the parts of the document at that position together, and
    exactly the tokens that occur in one of these parts. *)
Theorem flatten_execute_per_document
    (self : Flatten.Flattened) (inputs : gmap string (list Flatten.document)) :
  (inputs !! "documents" = None ->
   Flatten.execute self inputs = Raise (KeyError "documents")) /\
  (forall documents,
     inputs !! "documents" = Some documents ->
     exists flat,
       Flatten.execute self inputs = Return flat /\
       length flat = length documents /\
       forall (i : nat) (document : Flatten.document),
         documents !! i = Some document ->
         exists tokens : Flatten.flat_document,
           flat !! i = Some tokens /\
           length tokens = sum_list (length <$> document) /\
           forall token,
             token ∈ tokens <-> exists part, part ∈ document /\ token ∈ part).
Proof.
  split.
  - intros Hnone. unfold Flatten.execute, Flatten.document in *.
    by rewrite Hnone.
  - intros documents Hsome. unfold Flatten.execute, Flatten.document in *.
    rewrite Hsome. eexists. split; [ reflexivity | ].
    split; [ by rewrite length_fmap | ].
    intros i document Hi. exists (concat document).
    rewrite list_lookup_fmap, Hi. split; [ done | ].
    split; [ apply concat_length | intros token; apply elem_of_concat ].
Qed.

(** * Further properties: the shape of the sparse array *)

Section SparseArrayShape.

Lemma size_list_to_set_le (positions : list (Z * Z)) :
  (size (list_to_set positions : gset (Z * Z)) <= length positions)%nat.
Proof.
  induction positions as [ | position rest IH ].
  - by rewrite list_to_set_nil, size_empty.
  - rewrite list_to_set_cons, size_union_alt, size_singleton. simpl length.
    pose proof (subseteq_size (list_to_set rest ∖ {[ position ]})
                  (list_to_set rest : gset (Z * Z))) as Hle.
    assert ((list_to_set rest : gset (Z * Z)) ∖ {[ position ]}
            ⊆ list_to_set rest) as Hsub.
    { intros x Hx. by apply elem_of_difference in Hx as [Hx _]. }
    specialize (Hle Hsub). lia.
Qed.

Lemma execute_returns_inv (word_to_index : gmap string Z)
    (documents : list Dict2Array.document) (array : Scipy.csr_array) :
  Dict2Array.execute word_to_index documents = Return array ->
  first_missing word_to_index documents = None /\
  Scipy.make_csr_array (counts documents)
    (Z.of_nat <$> rows_from 0 documents) (indices word_to_index documents)
  = Return array.
Proof.
  rewrite execute_spec.
  by destruct (first_missing word_to_index documents).
Qed.

End SparseArrayShape.

(** X7.  When the sparse-array step returns an array, there is at least one
    token; the array stores the positions (row, index) of the tokens, one
    entry a position, so at most as many entries as tokens and exactly as
    many when no two tokens share a position; the shape is one more than the
    largest row and the largest index in use, so every stored position lies
    inside it; there are at most as many rows as documents, and exactly as
    many when the last document has a token (documents without tokens at
    the end are not counted). *)
Theorem sparse_array_shape
    (word_to_index : gmap string Z)
    (documents : list Dict2Array.document) (array : Scipy.csr_array) :
  Dict2Array.execute word_to_index documents = Return array ->
  tokens documents <> [] /\
  Scipy.positions array
  = list_to_set (zip (Z.of_nat <$> rows_from 0 documents)
                   (indices word_to_index documents)) /\
  (size (Scipy.positions array) <= length (tokens documents))%nat /\
  (NoDup (zip (Z.of_nat <$> rows_from 0 documents)
            (indices word_to_index documents)) ->
   size (Scipy.positions array) = length (tokens documents)) /\
  Scipy.shape array
  = (Scipy.maximum (Z.of_nat <$> rows_from 0 documents) + 1,
     Scipy.maximum (indices word_to_index documents) + 1) /\
  (forall position,
     position ∈ Scipy.positions array ->
     0 <= position.1 < (Scipy.shape array).1 /\
     0 <= position.2 < (Scipy.shape array).2) /\
  (Scipy.shape array).1 <= Z.of_nat (length documents) /\
  (forall document,
     last documents = Some document -> document <> [] ->
     (Scipy.shape array).1 = Z.of_nat (length documents)).
Proof.
  intros Hret.
  destruct (execute_returns_inv _ _ _ Hret) as [Hnone Hmake].
  destruct (make_csr_array_returns _ _ _ _ Hmake)
    as (Hne & Lrows & Lcols & Prows & Pcols & Hshape & Hpos).
  pose proof (rows_from_length 0 documents) as Hrows.
  pose proof (counts_length documents) as Hcounts.
  rewrite length_fmap in Lrows.
  assert (length (zip (Z.of_nat <$> rows_from 0 documents)
                    (indices word_to_index documents))
          = length (tokens documents)) as Hzip.
  { rewrite length_zip_with, length_fmap. lia. }
  assert (Scipy.maximum (Z.of_nat <$> rows_from 0 documents)
          < Z.of_nat (length documents)) as Hmax.
  { pose proof (maximum_elem _ Hne) as Hin.
    apply list_elem_of_fmap in Hin as (r & -> & Hin).
    pose proof (proj1 (Forall_forall _ _) (rows_from_bounds 0 documents)
                  r Hin) as Hb.
    simpl in Hb. lia. }
  split.
  { intros Hnil. apply Hne. rewrite Hnil in Hrows.
    by destruct (rows_from 0 documents). }
  split; [ done | ].
  split; [ rewrite Hpos, <- Hzip; apply size_list_to_set_le | ].
  split; [ intros Hnodup; by rewrite Hpos, size_list_to_set | ].
  split; [ done | ].
  rewrite Hshape. simpl.
  split; [ | split; [ lia | ] ].
  - intros [r c]. rewrite Hpos, elem_of_list_to_set. intros Hin. simpl.
    pose proof (elem_of_zip_l _ _ _ _ Hin) as Hr.
    pose proof (elem_of_zip_r _ _ _ _ Hin) as Hc.
    pose proof (maximum_bound _ _ Hr). pose proof (maximum_bound _ _ Hc).
    pose proof (proj1 (Forall_forall _ _) Prows r Hr).
    pose proof (proj1 (Forall_forall _ _) Pcols c Hc).
    lia.
  - intros document Hlast Hdoc.
    apply last_Some in Hlast as [front ->].
    assert (Z.of_nat (length front)
            <= Scipy.maximum (Z.of_nat <$> rows_from 0 (front ++ [document])))
      as Hge.
    { apply maximum_bound, list_elem_of_fmap. exists (length front).
      split; [ done | ]. rewrite rows_from_app. simpl.
      apply elem_of_app. right. rewrite app_nil_r.
      apply elem_of_replicate. split; [ done | ].
      by destruct document. }
    rewrite length_app in *. simpl in *. lia.
Qed.

Lemma sparse_array_shape_witness :
  let array :=
    {| Scipy.shape := (3, 2);
       Scipy.dtype_of := Scipy.Int64;
       Scipy.stored :=
         Scipy.Integers {[ (0, 0) := 2; (0, 1) := 1; (2, 1) := 5 ]} |} in
  Dict2Array.execute ab_index [[("a", 2); ("b", 1)]; []; [("b", 5)]; []]
  = Return array /\
  (Scipy.shape array).1
  <= Z.of_nat (length [[("a", 2); ("b", 1)]; []; [("b", 5)];
                       ([] : Dict2Array.document)]).
Proof.
  intros array.
  assert (Dict2Array.execute ab_index
            [[("a", 2); ("b", 1)]; []; [("b", 5)]; []]
          = Return array) as H.
  { vm_compute. reflexivity. }
  split; [ exact H | ].
  apply (sparse_array_shape ab_index _ _ H).
Defined.

(** * Further properties: what the word2vec step returns *)

Section ExecResults.

Import Conf.

Context {A B : Type}.

Lemma result_ret (a : A) : result (mret a : Exec A) = Return a.
Proof. reflexivity. Qed.

Lemma result_lift (m : outcome A) : result (lift m) = m.
Proof. reflexivity. Qed.

Lemma result_get_casted_str (conf : config) (key : string) :
  result (get_casted_str conf key)
  = match conf !! key with
    | Some (PStr s) => Return s
    | _ => Raise (ConfigurationError key)
    end.
Proof. reflexivity. Qed.

(** The outcome of a sequence is the sequence of the outcomes. *)
Lemma result_bind (keys keys' : list string) (m : Exec A) (k : A -> Exec B) :
  reads_only keys m ->
  (forall a, result m = Return a -> reads_only keys' (k a)) ->
  result (m ≫= k) = (a ← result m; result (k a)).
Proof.
  intros (ks & r & _ & _ & Hm) Hk.
  assert (result m = r) as Hr by (unfold result; by rewrite Hm).
  rewrite Hr. unfold result at 1. unfold mbind at 1. unfold exec_bind.
  rewrite Hm. destruct r as [a | e]; simpl; [ | done ].
  eapply reads_only_result, Hk. exact Hr.
Qed.

End ExecResults.

Section Stacking.

Import Numpy.

Lemma all_equal_const (n : nat) (ns : list nat) :
  Forall (fun k => k = n) ns -> all_equal ns = true.
Proof.
  intros Hall. destruct ns as [ | k rest ]; [ done | ]. simpl.
  apply Forall_cons in Hall as [-> Hrest].
  apply forallb_forall. intros j Hj. apply Nat.eqb_eq.
  symmetry. apply (proj1 (Forall_forall _ _) Hrest). by apply list_elem_of_In.
Qed.

Lemma all_equal_head (n : nat) (ns : list nat) :
  all_equal (n :: ns) = true -> Forall (fun k => k = n) (n :: ns).
Proof.
  simpl. intros Hall. constructor; [ done | ].
  apply Forall_forall. intros j Hj. symmetry. apply Nat.eqb_eq.
  apply (proj1 (forallb_forall _ _) Hall). by apply list_elem_of_In.
Qed.

Lemma mapM_id_fmap_Some {X} (l : list X) : mapM id (Some <$> l) = Some l.
Proof. by apply mapM_fmap_Some. Qed.

Lemma mapM_id_Some {X} (tup : list (option X)) (l : list X) :
  mapM id tup = Some l -> tup = Some <$> l.
Proof.
  intros E. symmetry. apply (mapM_fmap_Some_inv id Some _ _ E).
  by intros x y [= ->].
Qed.

(** Rows of one length stack to themselves. *)
Lemma vstack_vectors_uniform (d : nat) (rows : list vector) :
  rows <> [] -> Forall (fun row => length row = d) rows ->
  vstack_vectors (Some <$> rows) = Return rows.
Proof.
  intros Hne Hall. unfold vstack_vectors.
  rewrite mapM_id_fmap_Some.
  rewrite all_equal_const with (n := d); [ by destruct rows | ].
  by apply Forall_fmap.
Qed.

Lemma vstack_vectors_returns (tup : list (option vector)) (m : matrix) :
  vstack_vectors tup = Return m -> tup = Some <$> m /\ rectangular m.
Proof.
  unfold vstack_vectors. destruct tup as [ | o tup ]; [ done | ].
  destruct (mapM id (o :: tup)) as [rows | ] eqn:E; [ | done ].
  destruct (all_equal (length <$> rows)) eqn:Heq; [ | done ].
  intros [= <-]. apply mapM_id_Some in E. split; [ done | ].
  destruct rows as [ | row rows ]; [ done | ]. split; [ done | ].
  simpl. rewrite fmap_cons in Heq. apply all_equal_head in Heq.
  rewrite <- fmap_cons in Heq. apply Forall_fmap in Heq.
  eapply Forall_impl; [ exact Heq | ]. by intros r Hr.
Qed.

Lemma vstack_returns (tup : list matrix) (m : matrix) :
  vstack tup = Return m ->
  tup <> [] /\ m = concat tup /\ all_equal (columns <$> tup) = true.
Proof.
  unfold vstack. destruct tup as [ | first tup ]; [ done | ].
  destruct (all_equal (columns <$> first :: tup)) eqn:Heq; [ | done ].
  by intros [= <-].
Qed.

(** Arrays with rows of one length stack to their rows in order. *)
Lemma vstack_uniform (d : nat) (tup : list matrix) :
  tup <> [] ->
  Forall (fun m => m <> [] /\ Forall (fun row => length row = d) m) tup ->
  vstack tup = Return (concat tup).
Proof.
  intros Hne Hall. unfold vstack.
  rewrite all_equal_const with (n := d); [ by destruct tup | ].
  apply Forall_fmap. eapply Forall_impl; [ exact Hall | ].
  intros m [Hm Hrows]. simpl. destruct m as [ | row m ]; [ done | ].
  simpl. by apply Forall_cons in Hrows as [-> _].
Qed.

(** What stacks is rectangular. *)
Lemma vstack_rectangular (tup : list matrix) (m : matrix) :
  Forall rectangular tup -> vstack tup = Return m ->
  rectangular m /\ (length tup <= length m)%nat.
Proof.
  intros Hrect Hstack.
  apply vstack_returns in Hstack as (Hne & -> & Heq).
  destruct tup as [ | first tup ]; [ done | ].
  rewrite fmap_cons in Heq. apply all_equal_head in Heq.
  rewrite <- fmap_cons in Heq. apply Forall_fmap in Heq.
  pose proof (Forall_inv Hrect) as [Hfirst _].
  destruct first as [ | row first ]; [ done | ].
  split; [ split; [ done | ] | ].
  - change (columns (concat ((row :: first) :: tup))) with (length row).
    apply Forall_forall. intros r Hr.
    apply elem_of_concat in Hr as (part & Hpart & Hr).
    pose proof (proj1 (Forall_forall _ _) Hrect part Hpart) as [_ Hrows].
    pose proof (proj1 (Forall_forall _ _) Heq part Hpart) as Hcol.
    simpl in Hcol. rewrite <- Hcol.
    by apply (proj1 (Forall_forall _ _) Hrows).
  - clear Heq Hne. revert Hrect. generalize ((row :: first) :: tup).
    intros stacked Hstacked.
    induction Hstacked as [ | part others [Hpart _] _ IH ]; simpl; [ done | ].
    rewrite length_app. destruct part; [ done | ]. simpl. lia.
Qed.

Lemma stack_each_uniform (d : nat) (rows_of : list string -> list vector)
    (documents : list (list string)) :
  Forall (fun document =>
            rows_of document <> [] /\
            Forall (fun row => length row = d) (rows_of document)) documents ->
  stack_each (fun document => Some <$> rows_of document) documents
  = Return (rows_of <$> documents).
Proof.
  induction 1 as [ | document rest [Hne Hrows] _ IH ]; simpl; [ done | ].
  rewrite (vstack_vectors_uniform d), IH; done.
Qed.

Lemma stack_each_returns (rows_of : list string -> list vector)
    (documents : list (list string)) (ms : list matrix) :
  stack_each (fun document => Some <$> rows_of document) documents = Return ms ->
  ms = rows_of <$> documents /\ Forall rectangular ms.
Proof.
  revert ms. induction documents as [ | document rest IH ]; intros ms; simpl.
  - intros [= <-]. by split.
  - destruct (vstack_vectors (Some <$> rows_of document)) as [m | ] eqn:V;
      [ | done ]. simpl.
    destruct (stack_each _ rest) as [others | ] eqn:S; [ | done ]. simpl.
    intros [= <-]. destruct (IH others eq_refl) as [-> Hrect].
    apply vstack_vectors_returns in V as [Hm Hr].
    apply (inj (fmap Some)) in Hm. subst m. split; [ done | by constructor ].
Qed.

End Stacking.

Section Word2VecResults.

Import Conf Word2Vec.

Variables (conf : config) (vectors : gmap string Numpy.vector).
Variable p : string.
Hypothesis policy_is_p : conf !! policy_key = Some (PStr p).

(** One turn of the inner loop. *)
Lemma encode_document_step replacement_vector word rest document_vectors :
  result (encode_document conf vectors replacement_vector (word :: rest)
            document_vectors)
  = match vectors !! word with
    | Some v =>
        result (encode_document conf vectors replacement_vector rest
                  (document_vectors ++ [Some v]))
    | None =>
        if String.eqb p "ignore" then
          result (encode_document conf vectors replacement_vector rest
                    document_vectors)
        else if String.eqb p "error" then Raise (KeyError (word_not_found word))
        else if String.eqb p "replace" then
          result (encode_document conf vectors replacement_vector rest
                    (document_vectors ++ [replacement_vector]))
        else
          result (encode_document conf vectors replacement_vector rest
                    document_vectors)
    end.
Proof.
  simpl. destruct (vectors !! word) as [v | ]; [ done | ].
  erewrite result_bind.
  - rewrite result_get_casted_str, policy_is_p. simpl.
    destruct (String.eqb p "ignore"); [ done | ].
    destruct (String.eqb p "error"); [ done | ].
    by destruct (String.eqb p "replace").
  - apply (reads_only_get_casted_str [policy_key]), list_elem_of_singleton.
    done.
  - intros policy _.
    destruct (String.eqb policy "ignore"); [ apply encode_document_reads | ].
    destruct (String.eqb policy "error"); [ by apply reads_only_lift | ].
    destruct (String.eqb policy "replace"); apply encode_document_reads.
Qed.

(** A policy that is neither ['error'] nor ['replace'] keeps the known
    words. *)
Lemma encode_document_skipping replacement_vector document document_vectors :
  p <> "error" -> p <> "replace" ->
  result (encode_document conf vectors replacement_vector document
            document_vectors)
  = Return (document_vectors ++ (Some <$> known_vectors vectors document)).
Proof.
  intros Herror Hreplace. apply String.eqb_neq in Herror, Hreplace.
  revert document_vectors.
  induction document as [ | word rest IH ]; intros document_vectors.
  - simpl. by rewrite app_nil_r.
  - rewrite encode_document_step, Herror, Hreplace.
    unfold known_vectors in *. simpl.
    destruct (vectors !! word) as [v | ].
    + rewrite IH, <- app_assoc. done.
    + destruct (String.eqb p "ignore"); apply IH.
Qed.

(** The policy ['replace'] puts the replacement vector for an unknown
    word. *)
Lemma encode_document_replacing r document document_vectors :
  p = "replace" ->
  result (encode_document conf vectors (Some r) document document_vectors)
  = Return (document_vectors ++ (Some <$> replaced_vectors vectors r document)).
Proof.
  intros Hp. revert document_vectors.
  induction document as [ | word rest IH ]; intros document_vectors.
  - simpl. by rewrite app_nil_r.
  - rewrite encode_document_step, Hp. unfold replaced_vectors in *. simpl.
    destruct (vectors !! word) as [v | ]; simpl;
      rewrite IH, <- app_assoc; done.
Qed.

(** The policy ['error'] stops at the first unknown word. *)
Lemma encode_document_strict replacement_vector document document_vectors :
  p = "error" ->
  result (encode_document conf vectors replacement_vector document
            document_vectors)
  = match List.find (fun word => bool_decide (vectors !! word = None)) document
    with
    | Some word => Raise (KeyError (word_not_found word))
    | None =>
        Return (document_vectors ++ (Some <$> known_vectors vectors document))
    end.
Proof.
  intros Hp. revert document_vectors.
  induction document as [ | word rest IH ]; intros document_vectors.
  - simpl. by rewrite app_nil_r.
  - rewrite encode_document_step, Hp. unfold known_vectors in *. simpl.
    destruct (vectors !! word) as [v | ]; simpl; [ | done ].
    rewrite IH. destruct (List.find _ rest); [ done | ].
    by rewrite <- app_assoc.
Qed.

(** The outer loop, when each document contributes the rows [rows_of]. *)
Lemma encode_documents_rows replacement_vector
    (rows_of : list string -> list (option Numpy.vector)) documents :
  (forall document document_vectors,
     document ∈ documents ->
     result (encode_document conf vectors replacement_vector document
               document_vectors)
     = Return (document_vectors ++ rows_of document)) ->
  forall acc,
    result (encode_documents conf vectors replacement_vector documents acc)
    = (ms ← stack_each rows_of documents; mret (acc ++ ms)).
Proof.
  induction documents as [ | document rest IH ]; intros Hrows acc.
  - simpl. by rewrite app_nil_r.
  - simpl. erewrite result_bind;
      [ | apply encode_document_reads | intros document_vectors _ ].
    + rewrite Hrows by (by left). simpl.
      erewrite result_bind;
        [ | apply (reads_only_lift [policy_key]); intros key;
            apply vstack_vectors_error
          | intros stacked _; apply encode_documents_reads ].
      rewrite result_lift.
      destruct (Numpy.vstack_vectors (rows_of document)) as [stacked | e];
        simpl; [ | done ].
      rewrite IH.
      * destruct (stack_each rows_of rest) as [others | e]; simpl; [ | done ].
        by rewrite <- app_assoc.
      * intros d dv Hd. apply Hrows. by right.
    + apply reads_only_bind.
      * apply reads_only_lift. intros key. apply vstack_vectors_error.
      * intros stacked _. apply encode_documents_reads.
Qed.

(** The outer loop always gives one more rectangular array per document. *)
Lemma encode_documents_returns replacement_vector documents acc ms :
  result (encode_documents conf vectors replacement_vector documents acc)
  = Return ms ->
  exists new,
    ms = acc ++ new /\ length new = length documents /\ Forall rectangular new.
Proof.
  revert acc. induction documents as [ | document rest IH ]; intros acc.
  - simpl. intros [= <-]. exists []. by rewrite app_nil_r.
  - simpl. erewrite result_bind;
      [ | apply encode_document_reads | intros document_vectors _ ].
    + destruct (result (encode_document conf vectors replacement_vector
                          document [])) as [document_vectors | e];
        simpl; [ | done ].
      erewrite result_bind;
        [ | apply (reads_only_lift [policy_key]); intros key;
            apply vstack_vectors_error
          | intros stacked _; apply encode_documents_reads ].
      rewrite result_lift.
      destruct (Numpy.vstack_vectors document_vectors) as [stacked | e] eqn:V;
        simpl; [ | done ].
      intros Hrest. destruct (IH _ Hrest) as (new & -> & Hlen & Hrect).
      exists (stacked :: new). rewrite <- app_assoc. simpl.
      split; [ done | ]. split; [ by rewrite Hlen | ].
      constructor; [ | done ]. by apply vstack_vectors_returns in V as [_ ?].
    + apply reads_only_bind.
      * apply reads_only_lift. intros key. apply vstack_vectors_error.
      * intros stacked _. apply encode_documents_reads.
Qed.

(** [execute] once the policy is read: the replacement vector, the loops and
    the final stacking. *)
Lemma execute_result documents :
  result (execute conf vectors documents)
  = (replacement_vector ←
       (if String.eqb p "replace" then
          match conf !! replacement_key with
          | Some (PStr key) =>
              match vectors !! key with
              | Some v => Return (Some v)
              | None => Raise (ValueError (replacement_not_found key))
              end
          | _ => Raise (ConfigurationError replacement_key)
          end
        else Return None);
     ms ← result (encode_documents conf vectors replacement_vector documents []);
     Numpy.vstack ms).
Proof.
  assert (forall policy,
            reads_only [replacement_key]
              (if String.eqb policy "replace" then
                 key ← get_casted_str conf replacement_key;
                 match vectors !! key with
                 | Some v => mret (Some v)
                 | None => raise (ValueError (replacement_not_found key))
                 end
               else mret None : Exec (option Numpy.vector))) as Hreads.
  { intros policy.
    destruct (String.eqb policy "replace"); [ | apply reads_only_ret ].
    apply reads_only_bind.
    - apply reads_only_get_casted_str. by apply list_elem_of_singleton.
    - intros key _. destruct (vectors !! key); [ apply reads_only_ret | ].
      by apply reads_only_lift. }
  unfold execute.
  rewrite (result_bind [policy_key] [policy_key; replacement_key]).
  - rewrite result_get_casted_str, policy_is_p. simpl.
    rewrite (result_bind [replacement_key] [policy_key]);
      [ | apply Hreads | intros replacement_vector _;
                         apply execute_tail_reads ].
    assert (result
              (if String.eqb p "replace" then
                 key ← get_casted_str conf replacement_key;
                 match vectors !! key with
                 | Some v => mret (Some v)
                 | None => raise (ValueError (replacement_not_found key))
                 end
               else mret None : Exec (option Numpy.vector))
            = (if String.eqb p "replace" then
                 match conf !! replacement_key with
                 | Some (PStr key) =>
                     match vectors !! key with
                     | Some v => Return (Some v)
                     | None => Raise (ValueError (replacement_not_found key))
                     end
                 | _ => Raise (ConfigurationError replacement_key)
                 end
               else Return None)) as Hrepl.
    { destruct (String.eqb p "replace"); [ | done ].
      rewrite (result_bind [replacement_key] [replacement_key]).
      - rewrite result_get_casted_str.
        destruct (conf !! replacement_key) as [[ | | | key | ] | ]; try done.
        simpl. by destruct (vectors !! key).
      - apply reads_only_get_casted_str. by apply list_elem_of_singleton.
      - intros key _. destruct (vectors !! key); [ apply reads_only_ret | ].
        by apply reads_only_lift. }
    rewrite Hrepl.
    destruct (if String.eqb p "replace" then _ else _)
      as [replacement_vector | e]; simpl; [ | done ].
    rewrite (result_bind [policy_key] [policy_key]);
      [ done | apply encode_documents_reads | ].
    intros ms _. apply reads_only_lift. intros key. apply vstack_error.
  - apply reads_only_get_casted_str. by apply list_elem_of_singleton.
  - intros policy _. apply reads_only_bind.
    + eapply reads_only_weaken; [ | apply Hreads ].
      intros key Hkey. apply list_elem_of_singleton in Hkey. subst key.
      apply elem_of_cons. right. by apply list_elem_of_singleton.
    + intros replacement_vector _.
      eapply reads_only_weaken; [ | apply execute_tail_reads ].
      intros key Hkey. apply list_elem_of_singleton in Hkey. subst key.
      apply elem_of_cons. by left.
Qed.

End Word2VecResults.

Section Word2VecRows.

Import Conf Word2Vec.

Variable vectors : gmap string Numpy.vector.

Lemma known_vectors_concat (documents : list (list string)) :
  concat (known_vectors vectors <$> documents)
  = known_vectors vectors (concat documents).
Proof.
  unfold known_vectors.
  induction documents as [ | document rest IH ]; [ done | ].
  rewrite fmap_cons. simpl concat. by rewrite omap_app, IH.
Qed.

Lemma replaced_vectors_concat (r : Numpy.vector)
    (documents : list (list string)) :
  concat (replaced_vectors vectors r <$> documents)
  = replaced_vectors vectors r (concat documents).
Proof.
  unfold replaced_vectors.
  induction documents as [ | document rest IH ]; [ done | ].
  rewrite fmap_cons. simpl concat. by rewrite fmap_app, IH.
Qed.

Lemma known_vectors_uniform (d : nat) (words : list string) :
  uniform d vectors ->
  Forall (fun row => length row = d) (known_vectors vectors words).
Proof.
  intros Hd. unfold known_vectors.
  induction words as [ | word rest IH ]; simpl; [ constructor | ].
  destruct (vectors !! word) as [v | ] eqn:E; [ | done ].
  constructor; [ by apply (Hd word) | done ].
Qed.

Lemma replaced_vectors_uniform (d : nat) (r : Numpy.vector)
    (words : list string) :
  uniform d vectors -> length r = d ->
  Forall (fun row => length row = d) (replaced_vectors vectors r words).
Proof.
  intros Hd Hr. unfold replaced_vectors. apply Forall_fmap, Forall_forall.
  intros word _. simpl.
  destruct (vectors !! word) as [v | ] eqn:E; simpl; [ by apply (Hd word) | done ].
Qed.

(** All words known: the known vectors are the vectors of all the words. *)
Lemma known_vectors_all (words : list string) :
  Forall (fun word => is_Some (vectors !! word)) words ->
  Some <$> known_vectors vectors words = (fun word => vectors !! word) <$> words.
Proof.
  unfold known_vectors. induction 1 as [ | word rest [v E] _ IH ]; [ done | ].
  rewrite fmap_cons, <- IH. simpl. by rewrite E.
Qed.

Lemma find_unknown_none (words : list string) :
  List.find (fun word => bool_decide (vectors !! word = None)) words = None <->
  Forall (fun word => is_Some (vectors !! word)) words.
Proof.
  split.
  - intros Hnone. apply Forall_forall. intros word Hin.
    apply list_elem_of_In in Hin.
    pose proof (find_none _ _ Hnone word Hin) as Hf. simpl in Hf.
    apply bool_decide_eq_false_1 in Hf.
    by destruct (vectors !! word); [ eauto | ].
  - intros Hall.
    destruct (List.find _ words) as [word | ] eqn:F; [ | done ].
    apply find_some in F as [Hin Hmiss]. apply list_elem_of_In in Hin.
    apply bool_decide_eq_true_1 in Hmiss.
    destruct (proj1 (Forall_forall _ _) Hall word Hin) as [v E]. congruence.
Qed.

Lemma vstack_vectors_raises (tup : list (option Numpy.vector)) (e : exn) :
  Numpy.vstack_vectors tup = Raise e -> exists msg, e = ValueError msg.
Proof.
  unfold Numpy.vstack_vectors. destruct tup; [ intros [= <-]; eauto | ].
  destruct (mapM id _); [ | intros [= <-]; eauto ].
  destruct (Numpy.all_equal _); [ done | intros [= <-]; eauto ].
Qed.

End Word2VecRows.

Section Word2VecPolicies.

Import Conf Word2Vec.

Variables (conf : config) (vectors : gmap string Numpy.vector).

(** [execute] under a policy that skips unknown words. *)
Lemma execute_skipping (p : string) (documents : list (list string)) :
  conf !! policy_key = Some (PStr p) -> p <> "error" -> p <> "replace" ->
  result (execute conf vectors documents)
  = (ms ← stack_each (fun document => Some <$> known_vectors vectors document)
            documents;
     Numpy.vstack ms).
Proof.
  intros Hp Herror Hreplace.
  rewrite (execute_result conf vectors p Hp).
  rewrite (proj2 (String.eqb_neq _ _) Hreplace). simpl.
  rewrite (encode_documents_rows conf vectors None
             (fun document => Some <$> known_vectors vectors document)).
  - by destruct (stack_each _ documents).
  - intros document document_vectors _.
    by apply (encode_document_skipping conf vectors p Hp).
Qed.

(** [execute] under the policy ['replace'], the replacement word having the
    vector [r]. *)
Lemma execute_replacing (key : string) (r : Numpy.vector)
    (documents : list (list string)) :
  conf !! policy_key = Some (PStr "replace") ->
  conf !! replacement_key = Some (PStr key) ->
  vectors !! key = Some r ->
  result (execute conf vectors documents)
  = (ms ← stack_each
            (fun document => Some <$> replaced_vectors vectors r document)
            documents;
     Numpy.vstack ms).
Proof.
  intros Hp Hkey Hr.
  rewrite (execute_result conf vectors "replace" Hp).
  simpl. rewrite Hkey, Hr. simpl.
  rewrite (encode_documents_rows conf vectors (Some r)
             (fun document => Some <$> replaced_vectors vectors r document)).
  - by destruct (stack_each _ documents).
  - intros document document_vectors _.
    by apply (encode_document_replacing conf vectors "replace" Hp).
Qed.

(** What a returned array is, when each document contributes the rows
    [rows_of]. *)
Lemma stacked_result (rows_of : list string -> list Numpy.vector)
    (documents : list (list string)) (m : Numpy.matrix) :
  (ms ← stack_each (fun document => Some <$> rows_of document) documents;
   Numpy.vstack ms) = Return m ->
  m = concat (rows_of <$> documents) /\
  documents <> [] /\
  Forall (fun document => rows_of document <> []) documents.
Proof.
  destruct (stack_each _ documents) as [ms | e] eqn:S; simpl; [ | done ].
  intros V. apply stack_each_returns in S as [-> Hrect].
  apply vstack_returns in V as (Hne & -> & _).
  split; [ done | ]. split; [ by destruct documents | ].
  apply (proj1 (Forall_fmap _ _ _)) in Hrect.
  eapply Forall_impl; [ exact Hrect | ].
  by intros document [Hdoc _].
Qed.

Lemma stacked_uniform (d : nat) (rows_of : list string -> list Numpy.vector)
    (documents : list (list string)) :
  documents <> [] ->
  Forall (fun document =>
            rows_of document <> [] /\
            Forall (fun row => length row = d) (rows_of document)) documents ->
  (ms ← stack_each (fun document => Some <$> rows_of document) documents;
   Numpy.vstack ms) = Return (concat (rows_of <$> documents)).
Proof.
  intros Hne Hall. rewrite (stack_each_uniform d _ _ Hall). simpl.
  apply (vstack_uniform d); [ by destruct documents | ].
  by apply Forall_fmap.
Qed.

End Word2VecPolicies.

(** X8.  Under the policy ['replace'] the replacement is checked before any
    document is read, whatever the documents are: without a string at
    ['params.unknown-word-replacement'] execute raises a configuration
    error at that key, and with a replacement word that is not in the
    embedding it raises [ValueError] naming the word.  In both cases the two
    keys have been consulted, the policy first. *)
Theorem word2vec_replace_checks_replacement_first
    (conf : config) (vectors : gmap string Numpy.vector)
    (documents : list (list string)) :
  conf !! Word2Vec.policy_key = Some (PStr "replace") ->
  ((forall key, conf !! Word2Vec.replacement_key <> Some (PStr key)) ->
   Word2Vec.execute conf vectors documents []
   = ([Word2Vec.replacement_key; Word2Vec.policy_key],
      Raise (ConfigurationError Word2Vec.replacement_key))) /\
  (forall key,
     conf !! Word2Vec.replacement_key = Some (PStr key) ->
     vectors !! key = None ->
     Word2Vec.execute conf vectors documents []
     = ([Word2Vec.replacement_key; Word2Vec.policy_key],
        Raise (ValueError (Word2Vec.replacement_not_found key)))).
Proof.
  intros Hp. split.
  - intros Hmissing.
    unfold Word2Vec.execute, mbind, Conf.exec_bind, Conf.get_casted_str.
    rewrite Hp. simpl.
    destruct (conf !! Word2Vec.replacement_key) as [[ | | | key | ] | ];
      try done.
    by destruct (Hmissing key).
  - intros key Hkey Hvec.
    unfold Word2Vec.execute, mbind, Conf.exec_bind, Conf.get_casted_str.
    rewrite Hp. simpl. rewrite Hkey. simpl. by rewrite Hvec.
Qed.

Lemma word2vec_replace_checks_replacement_first_witness :
  ({[ "params.unknown-word-policy" := PStr "replace" ]} : config)
    !! Word2Vec.policy_key = Some (PStr "replace") /\
  Word2Vec.execute {[ "params.unknown-word-policy" := PStr "replace" ]}
    {[ "a" := [1%float; 2%float] ]} [["a"]] []
  = ([Word2Vec.replacement_key; Word2Vec.policy_key],
     Raise (ConfigurationError Word2Vec.replacement_key)).
Proof.
  assert (({[ "params.unknown-word-policy" := PStr "replace" ]} : config)
            !! Word2Vec.policy_key = Some (PStr "replace")) as H
    by reflexivity.
  split; [ exact H | ].
  apply (word2vec_replace_checks_replacement_first _
           {[ "a" := [1%float; 2%float] ]} [["a"]] H).
  intros key. vm_compute. discriminate.
Defined.

(** X9.  A policy string other than ['error'] and ['replace'], be it
    ['ignore'] or a value outside the declared options, makes execute skip
    the unknown words: the outcome is the one under ['ignore']. *)
Theorem word2vec_unlisted_policy_is_ignore
    (conf : config) (vectors : gmap string Numpy.vector)
    (documents : list (list string)) (p : string) :
  conf !! Word2Vec.policy_key = Some (PStr p) ->
  p <> "error" -> p <> "replace" ->
  Conf.result (Word2Vec.execute conf vectors documents)
  = Conf.result
      (Word2Vec.execute (<[ Word2Vec.policy_key := PStr "ignore" ]> conf)
         vectors documents).
Proof.
  intros Hp Herror Hreplace.
  rewrite (execute_skipping conf vectors p documents Hp Herror Hreplace).
  rewrite (execute_skipping _ vectors "ignore" documents); try done.
  apply lookup_insert_eq.
Qed.

Lemma word2vec_unlisted_policy_is_ignore_witness :
  ({[ "params.unknown-word-policy" := PStr "skip" ]} : config)
    !! Word2Vec.policy_key = Some (PStr "skip") /\
  Conf.result
    (Word2Vec.execute {[ "params.unknown-word-policy" := PStr "skip" ]}
       {[ "a" := [1%float; 2%float] ]} [["a"; "zz"]; ["a"]])
  = Conf.result
      (Word2Vec.execute
         (<[ Word2Vec.policy_key := PStr "ignore" ]>
            {[ "params.unknown-word-policy" := PStr "skip" ]})
         {[ "a" := [1%float; 2%float] ]} [["a"; "zz"]; ["a"]]).
Proof.
  assert (({[ "params.unknown-word-policy" := PStr "skip" ]} : config)
            !! Word2Vec.policy_key = Some (PStr "skip")) as H by reflexivity.
  split; [ exact H | ].
  apply (word2vec_unlisted_policy_is_ignore _ _ _ "skip" H); discriminate.
Defined.

(** X10.  Under a policy that skips unknown words, a returned array holds
    the vectors of the known words of all documents, in order, and nothing
    else; it is returned only when there is a document and every document
    has a known word.  It is returned whenever that is the case and the
    vectors of the embedding have one length. *)
Theorem word2vec_ignore_keeps_known_words
    (conf : config) (vectors : gmap string Numpy.vector)
    (documents : list (list string)) (p : string) :
  conf !! Word2Vec.policy_key = Some (PStr p) ->
  p <> "error" -> p <> "replace" ->
  (forall m,
     Conf.result (Word2Vec.execute conf vectors documents) = Return m ->
     m = known_vectors vectors (concat documents) /\
     documents <> [] /\
     Forall (fun document => known_vectors vectors document <> []) documents) /\
  (forall d,
     uniform d vectors ->
     documents <> [] ->
     Forall (fun document => known_vectors vectors document <> []) documents ->
     Conf.result (Word2Vec.execute conf vectors documents)
     = Return (known_vectors vectors (concat documents))).
Proof.
  intros Hp Herror Hreplace.
  rewrite (execute_skipping conf vectors p documents Hp Herror Hreplace).
  split.
  - intros m Hm. apply stacked_result in Hm as (-> & Hne & Hall).
    by rewrite known_vectors_concat.
  - intros d Hd Hne Hall. rewrite <- known_vectors_concat.
    apply (stacked_uniform d); [ done | ].
    eapply Forall_impl; [ exact Hall | ]. intros document Hdoc.
    split; [ done | by apply known_vectors_uniform ].
Qed.

Lemma word2vec_ignore_keeps_known_words_witness :
  ({[ "params.unknown-word-policy" := PStr "ignore" ]} : config)
    !! Word2Vec.policy_key = Some (PStr "ignore") /\
  Conf.result
    (Word2Vec.execute {[ "params.unknown-word-policy" := PStr "ignore" ]}
       {[ "a" := [1%float; 2%float] ]} [["a"; "zz"]; ["a"]])
  = Return (known_vectors {[ "a" := [1%float; 2%float] ]}
              (concat [["a"; "zz"]; ["a"]])).
Proof.
  assert (({[ "params.unknown-word-policy" := PStr "ignore" ]} : config)
            !! Word2Vec.policy_key = Some (PStr "ignore")) as H
    by reflexivity.
  split; [ exact H | ].
  refine (proj2 (word2vec_ignore_keeps_known_words _
                   {[ "a" := [1%float; 2%float] ]} [["a"; "zz"]; ["a"]]
                   "ignore" H _ _) 2%nat _ _ _); try discriminate.
  - intros word v Hv. apply lookup_singleton_Some in Hv as [_ <-]. done.
  - repeat constructor; vm_compute; discriminate.
Defined.

Section Word2VecStrict.

Import Conf Word2Vec.

Variables (conf : config) (vectors : gmap string Numpy.vector).

(** One turn of the outer loop. *)
Lemma encode_documents_step replacement_vector document rest acc :
  result (encode_documents conf vectors replacement_vector (document :: rest)
            acc)
  = (document_vectors ←
       result (encode_document conf vectors replacement_vector document []);
     stacked ← Numpy.vstack_vectors document_vectors;
     result (encode_documents conf vectors replacement_vector rest
               (acc ++ [stacked]))).
Proof.
  simpl. rewrite (result_bind [policy_key] [policy_key]).
  - destruct (result (encode_document _ _ _ document [])) as [dv | e];
      simpl; [ | done ].
    rewrite (result_bind [policy_key] [policy_key]); [ done | | ].
    + apply reads_only_lift. intros key. apply vstack_vectors_error.
    + intros stacked _. apply encode_documents_reads.
  - apply encode_document_reads.
  - intros dv _. apply reads_only_bind.
    + apply reads_only_lift. intros key. apply vstack_vectors_error.
    + intros stacked _. apply encode_documents_reads.
Qed.

(** The errors of the policy ['error'] on a list of words: an unknown word
    of the list, named, or a failure to stack. *)
Definition strict_error (words : list string) (e : exn) : Prop :=
  (exists word,
     e = KeyError (word_not_found word) /\
     word ∈ words /\ vectors !! word = None) \/
  (exists msg, e = ValueError msg).

Hypothesis policy_is_error : conf !! policy_key = Some (PStr "error").

Lemma encode_documents_strict replacement_vector documents acc word :
  word ∈ concat documents -> vectors !! word = None ->
  exists e,
    result (encode_documents conf vectors replacement_vector documents acc)
    = Raise e /\
    strict_error (concat documents) e.
Proof.
  revert acc. induction documents as [ | document rest IH ]; intros acc Hin Hnone.
  - by apply elem_of_nil in Hin.
  - rewrite encode_documents_step.
    rewrite (encode_document_strict conf vectors "error" policy_is_error);
      [ | done ].
    destruct (List.find _ document) as [unknown | ] eqn:F; simpl.
    + apply find_some in F as [Hdoc Hmiss]. apply list_elem_of_In in Hdoc.
      apply bool_decide_eq_true_1 in Hmiss.
      eexists. split; [ reflexivity | ]. left. exists unknown.
      split; [ done | ]. split; [ | done ]. apply elem_of_app. by left.
    + destruct (Numpy.vstack_vectors _) as [stacked | e] eqn:V; simpl.
      * apply elem_of_app in Hin as [Hdoc | Hrest].
        { apply find_unknown_none in F.
          destruct (proj1 (Forall_forall _ _) F word Hdoc) as [v E].
          congruence. }
        destruct (IH (acc ++ [stacked]) Hrest Hnone) as (e & He & Hstrict).
        exists e. split; [ done | ].
        destruct Hstrict as [(w & -> & Hw & Hwnone) | Hvalue]; [ | by right ].
        left. exists w. split; [ done | ]. split; [ | done ].
        apply elem_of_app. by right.
      * exists e. split; [ done | ]. right.
        by apply vstack_vectors_raises in V.
Qed.

(** The documents that stack are passed over. *)
Lemma encode_documents_stackable replacement_vector before rest acc :
  Forall (stackable vectors) before ->
  exists acc',
    result (encode_documents conf vectors replacement_vector (before ++ rest)
              acc)
    = result (encode_documents conf vectors replacement_vector rest acc').
Proof.
  revert acc. induction before as [ | document before IH ]; intros acc Hall.
  - by exists acc.
  - apply Forall_cons in Hall as [(Hknown & Hne & d & Hd) Hall].
    destruct (IH (acc ++ [known_vectors vectors document]) Hall)
      as [acc' Hacc].
    exists acc'. rewrite <- Hacc.
    change ((document :: before) ++ rest) with (document :: (before ++ rest)).
    rewrite encode_documents_step.
    rewrite (encode_document_strict conf vectors "error" policy_is_error);
      [ | done ].
    rewrite (proj2 (find_unknown_none vectors document) Hknown). simpl.
    rewrite (vstack_vectors_uniform d); [ done | | done ].
    intros Hnil. apply Hne. destruct document as [ | word words ]; [ done | ].
    apply Forall_cons in Hknown as [[v E] _].
    unfold known_vectors in Hnil. simpl in Hnil. by rewrite E in Hnil.
Qed.

(** The first document with an unknown word raises for its first unknown
    word. *)
Lemma encode_documents_unknown replacement_vector before document after acc
    word :
  Forall (stackable vectors) before ->
  List.find (fun w => bool_decide (vectors !! w = None)) document = Some word ->
  result (encode_documents conf vectors replacement_vector
            (before ++ document :: after) acc)
  = Raise (KeyError (word_not_found word)).
Proof.
  intros Hall F.
  destruct (encode_documents_stackable replacement_vector before
              (document :: after) acc Hall) as [acc' ->].
  rewrite encode_documents_step.
  rewrite (encode_document_strict conf vectors "error" policy_is_error);
    [ | done ].
  by rewrite F.
Qed.

(** The first document that does not stack raises [ValueError]. *)
Lemma encode_documents_unstackable replacement_vector before document after
    acc :
  Forall (stackable vectors) before ->
  Forall (fun word => is_Some (vectors !! word)) document ->
  ~ stackable vectors document ->
  exists msg,
    result (encode_documents conf vectors replacement_vector
              (before ++ document :: after) acc)
    = Raise (ValueError msg).
Proof.
  intros Hall Hknown Hnot.
  destruct (encode_documents_stackable replacement_vector before
              (document :: after) acc Hall) as [acc' ->].
  rewrite encode_documents_step.
  rewrite (encode_document_strict conf vectors "error" policy_is_error);
    [ | done ].
  rewrite (proj2 (find_unknown_none vectors document) Hknown). simpl.
  destruct (Numpy.vstack_vectors _) as [stacked | e] eqn:V.
  - exfalso. apply Hnot.
    apply vstack_vectors_returns in V as [Hrows [Hne Hlen]].
    apply (inj (fmap Some)) in Hrows. subst stacked.
    split; [ done | ]. split; [ | eauto ].
    intros ->. by apply Hne.
  - apply vstack_vectors_raises in V as [msg ->]. by exists msg.
Qed.

End Word2VecStrict.

(** X11.  Under the policy ['replace'], with the replacement word in the
    embedding, a returned array has one row per word of the documents, in
    order: the vector of the word, or the vector of the replacement word
    when the word is unknown.  It is returned only when there is a document
    and no document is empty, and whenever that is the case and the vectors
    of the embedding have one length. *)
Theorem word2vec_replace_one_row_per_word
    (conf : config) (vectors : gmap string Numpy.vector)
    (documents : list (list string)) (key : string) (r : Numpy.vector) :
  conf !! Word2Vec.policy_key = Some (PStr "replace") ->
  conf !! Word2Vec.replacement_key = Some (PStr key) ->
  vectors !! key = Some r ->
  (forall m,
     Conf.result (Word2Vec.execute conf vectors documents) = Return m ->
     m = replaced_vectors vectors r (concat documents) /\
     length m = length (concat documents) /\
     documents <> [] /\
     Forall (fun document => document <> []) documents) /\
  (forall d,
     uniform d vectors ->
     documents <> [] ->
     Forall (fun document => document <> []) documents ->
     Conf.result (Word2Vec.execute conf vectors documents)
     = Return (replaced_vectors vectors r (concat documents))).
Proof.
  intros Hp Hkey Hr.
  rewrite (execute_replacing conf vectors key r documents Hp Hkey Hr).
  split.
  - intros m Hm. apply stacked_result in Hm as (-> & Hne & Hall).
    rewrite replaced_vectors_concat. split; [ done | ].
    split; [ unfold replaced_vectors; by rewrite length_fmap | ].
    split; [ done | ].
    eapply Forall_impl; [ exact Hall | ]. intros document Hdoc ->.
    by apply Hdoc.
  - intros d Hd Hne Hall. rewrite <- replaced_vectors_concat.
    apply (stacked_uniform d); [ done | ].
    eapply Forall_impl; [ exact Hall | ]. intros document Hdoc. split.
    + unfold replaced_vectors. by destruct document.
    + apply replaced_vectors_uniform; [ done | by apply (Hd key) ].
Qed.

Lemma word2vec_replace_one_row_per_word_witness :
  Conf.result
    (Word2Vec.execute
       {[ "params.unknown-word-policy" := PStr "replace";
          "params.unknown-word-replacement" := PStr "unk" ]}
       {[ "a" := [1%float; 2%float]; "unk" := [0%float; 0%float] ]}
       [["a"; "zz"]; ["yy"]])
  = Return (replaced_vectors
              {[ "a" := [1%float; 2%float]; "unk" := [0%float; 0%float] ]}
              [0%float; 0%float] (concat [["a"; "zz"]; ["yy"]])).
Proof.
  refine (proj2 (word2vec_replace_one_row_per_word
                   {[ "params.unknown-word-policy" := PStr "replace";
                      "params.unknown-word-replacement" := PStr "unk" ]}
                   {[ "a" := [1%float; 2%float];
                      "unk" := [0%float; 0%float] ]}
                   [["a"; "zz"]; ["yy"]] "unk" [0%float; 0%float]
                   eq_refl eq_refl eq_refl) 2%nat _ _ _).
  - intros word v Hv.
    apply lookup_insert_Some in Hv as [[_ <-] | [_ Hv]]; [ done | ].
    by apply lookup_singleton_Some in Hv as [_ <-].
  - discriminate.
  - repeat constructor; discriminate.
Defined.

(** X12.  Under the policy ['error'] the documents are handled in order,
    and the first one that cannot be turned into an array decides the
    outcome.  After documents that stack, a document with a word that is not
    in the embedding raises [KeyError] naming its first such word, and a
    document of known words that does not stack (no word at all, or vectors
    of different lengths) raises [ValueError].  So with a word that is not
    in the embedding execute never returns.  A returned array means that
    every word of every document is in the embedding, and it holds the
    vectors of the words in order, one row per word. *)
Theorem word2vec_error_policy
    (conf : config) (vectors : gmap string Numpy.vector)
    (documents : list (list string)) :
  conf !! Word2Vec.policy_key = Some (PStr "error") ->
  (forall before document after word,
     documents = before ++ document :: after ->
     Forall (stackable vectors) before ->
     List.find (fun w => bool_decide (vectors !! w = None)) document
     = Some word ->
     Conf.result (Word2Vec.execute conf vectors documents)
     = Raise (KeyError (Word2Vec.word_not_found word))) /\
  (forall before document after,
     documents = before ++ document :: after ->
     Forall (stackable vectors) before ->
     Forall (fun word => is_Some (vectors !! word)) document ->
     ~ stackable vectors document ->
     exists msg,
       Conf.result (Word2Vec.execute conf vectors documents)
       = Raise (ValueError msg)) /\
  (forall word,
     word ∈ concat documents -> vectors !! word = None ->
     exists e,
       Conf.result (Word2Vec.execute conf vectors documents) = Raise e /\
       ((exists unknown,
           e = KeyError (Word2Vec.word_not_found unknown) /\
           unknown ∈ concat documents /\ vectors !! unknown = None) \/
        (exists msg, e = ValueError msg))) /\
  (forall m,
     Conf.result (Word2Vec.execute conf vectors documents) = Return m ->
     Forall (fun word => is_Some (vectors !! word)) (concat documents) /\
     Some <$> m = (fun word => vectors !! word) <$> concat documents /\
     length m = length (concat documents)).
Proof.
  intros Hp.
  assert (forall word,
            word ∈ concat documents -> vectors !! word = None ->
            exists e,
              Conf.result (Word2Vec.execute conf vectors documents) = Raise e /\
              strict_error vectors (concat documents) e) as Hraise.
  { intros word Hin Hnone.
    rewrite (execute_result conf vectors "error" Hp). simpl.
    destruct (encode_documents_strict conf vectors Hp None documents []
                word Hin Hnone) as (e & He & Hstrict).
    exists e. by rewrite He. }
  split; [ | split; [ | split; [ exact Hraise | ] ] ].
  - intros before document after word -> Hall F.
    rewrite (execute_result conf vectors "error" Hp). simpl.
    by rewrite (encode_documents_unknown conf vectors Hp None before document
                  after [] word Hall F).
  - intros before document after -> Hall Hknown Hnot.
    rewrite (execute_result conf vectors "error" Hp). simpl.
    destruct (encode_documents_unstackable conf vectors Hp None before
                document after [] Hall Hknown Hnot) as [msg ->].
    by exists msg.
  - intros m Hm.
    assert (Forall (fun word => is_Some (vectors !! word)) (concat documents))
      as Hall.
    { apply Forall_forall. intros word Hin.
      destruct (vectors !! word) as [v | ] eqn:E; [ eauto | ].
      destruct (Hraise word Hin E) as (e & He & _). congruence. }
    split; [ exact Hall | ].
    assert (m = known_vectors vectors (concat documents)) as ->.
    { rewrite (execute_result conf vectors "error" Hp) in Hm. simpl in Hm.
      rewrite (encode_documents_rows conf vectors None
                 (fun document => Some <$> known_vectors vectors document))
        in Hm.
      - rewrite <- known_vectors_concat.
        apply stacked_result.
        by destruct (stack_each _ documents).
      - intros document document_vectors Hdoc.
        rewrite (encode_document_strict conf vectors "error" Hp); [ | done ].
        rewrite (proj2 (find_unknown_none vectors document)); [ done | ].
        apply Forall_forall. intros word Hword.
        apply (proj1 (Forall_forall _ _) Hall). apply elem_of_concat. eauto. }
    pose proof (known_vectors_all vectors _ Hall) as Hrows.
    split; [ exact Hrows | ].
    apply (f_equal length) in Hrows. by rewrite !length_fmap in Hrows.
Qed.

Lemma word2vec_error_policy_witness :
  ({[ "params.unknown-word-policy" := PStr "error" ]} : config)
    !! Word2Vec.policy_key = Some (PStr "error") /\
  Conf.result
    (Word2Vec.execute {[ "params.unknown-word-policy" := PStr "error" ]}
       {[ "a" := [1%float; 2%float] ]} [["a"]; ["a"; "zz"; "yy"]; ["xx"]])
  = Raise (KeyError (Word2Vec.word_not_found "zz")).
Proof.
  assert (({[ "params.unknown-word-policy" := PStr "error" ]} : config)
            !! Word2Vec.policy_key = Some (PStr "error")) as H by reflexivity.
  split; [ exact H | ].
  apply (proj1 (word2vec_error_policy _ {[ "a" := [1%float; 2%float] ]}
                  [["a"]; ["a"; "zz"; "yy"]; ["xx"]] H)
           [["a"]] ["a"; "zz"; "yy"] [["xx"]] "zz");
    [ reflexivity | | reflexivity ].
  constructor; [ | constructor ].
  split; [ | split; [ discriminate | ] ].
  - constructor; [ | constructor ]. by exists [1%float; 2%float].
  - exists 2%nat. vm_compute. by constructor.
Defined.

(** X13.  Whatever the configuration, an array that execute returns has at
    least one row per document and rows of one length, and there was at
    least one document: execute never returns an empty or ragged array, and
    it raises when there is no document. *)
Theorem word2vec_result_is_rectangular
    (conf : config) (vectors : gmap string Numpy.vector)
    (documents : list (list string)) (m : Numpy.matrix) :
  Conf.result (Word2Vec.execute conf vectors documents) = Return m ->
  rectangular m /\ documents <> [] /\ (length documents <= length m)%nat.
Proof.
  intros Hm.
  assert (exists p, conf !! Word2Vec.policy_key = Some (PStr p)) as [p Hp].
  { destruct (conf !! Word2Vec.policy_key) as [[ | | | p | ] | ] eqn:E;
      eauto; exfalso; revert Hm;
      unfold Conf.result, Word2Vec.execute, mbind, Conf.exec_bind,
        Conf.get_casted_str; rewrite E; done. }
  rewrite (execute_result conf vectors p Hp) in Hm.
  destruct (if String.eqb p "replace" then _ else _)
    as [replacement_vector | e]; simpl in Hm; [ | done ].
  destruct (Conf.result (Word2Vec.encode_documents _ _ _ _ _)) as [ms | e]
    eqn:Hloops; simpl in Hm; [ | done ].
  apply encode_documents_returns in Hloops as (new & -> & Hlen & Hrect).
  simpl in Hm.
  destruct (vstack_rectangular _ _ Hrect Hm) as [Hm_rect Hm_len].
  apply vstack_returns in Hm as (Hne & _ & _).
  split; [ done | ]. split; [ | lia ].
  intros ->. by destruct new.
Qed.

Lemma word2vec_result_is_rectangular_witness :
  Conf.result
    (Word2Vec.execute {[ "params.unknown-word-policy" := PStr "ignore" ]}
       {[ "a" := [1%float; 2%float] ]} [["a"; "zz"]; ["a"]])
  = Return [[1%float; 2%float]; [1%float; 2%float]] /\
  rectangular [[1%float; 2%float]; [1%float; 2%float]].
Proof.
  assert (Conf.result
            (Word2Vec.execute
               {[ "params.unknown-word-policy" := PStr "ignore" ]}
               {[ "a" := [1%float; 2%float] ]} [["a"; "zz"]; ["a"]])
          = Return [[1%float; 2%float]; [1%float; 2%float]]) as H.
  { vm_compute. reflexivity. }
  split; [ exact H | ].
  apply (word2vec_result_is_rectangular _ _ _ _ H).
Defined.

(** X14.  The configuration enters [execute] through the two keys
    ['params.unknown-word-policy'] and ['params.unknown-word-replacement']
    only: no other key is consulted, and two configurations with the same
    entries at these two keys give the same consulted keys and the same
    outcome. *)
Theorem word2vec_reads_two_keys
    (conf conf' : config) (vectors : gmap string Numpy.vector)
    (documents : list (list string)) :
  conf' !! Word2Vec.policy_key = conf !! Word2Vec.policy_key ->
  conf' !! Word2Vec.replacement_key = conf !! Word2Vec.replacement_key ->
  (forall log,
     Word2Vec.execute conf' vectors documents log
     = Word2Vec.execute conf vectors documents log) /\
  (forall key,
     key ∈ Conf.consulted (Word2Vec.execute conf vectors documents) ->
     key = Word2Vec.policy_key \/ key = Word2Vec.replacement_key).
Proof.
  intros Hpolicy Hreplacement. split.
  - intros log. unfold Word2Vec.execute, mbind, Conf.exec_bind.
    rewrite (get_casted_str_policy_ext conf conf' Hpolicy).
    destruct (Conf.get_casted_str conf Word2Vec.policy_key log)
      as [log' [policy | e]]; [ | done ].
    destruct (String.eqb policy "replace"); cbv beta.
    + assert (Conf.get_casted_str conf' Word2Vec.replacement_key log'
              = Conf.get_casted_str conf Word2Vec.replacement_key log') as ->.
      { unfold Conf.get_casted_str. by rewrite Hreplacement. }
      destruct (Conf.get_casted_str conf Word2Vec.replacement_key log')
        as [log'' [key | e]]; [ | done ].
      destruct (vectors !! key) as [v | ]; [ | done ].
      unfold mret, Conf.exec_ret.
      by rewrite (encode_documents_ext conf conf' vectors Hpolicy).
    + unfold mret, Conf.exec_ret.
      by rewrite (encode_documents_ext conf conf' vectors Hpolicy).
  - intros key Hkey.
    apply (reads_only_consulted _ _ _ (execute_reads conf vectors documents))
      in Hkey.
    apply elem_of_cons in Hkey as [-> | Hkey]; [ by left | ].
    apply list_elem_of_singleton in Hkey. by right.
Qed.

Lemma word2vec_reads_two_keys_witness :
  Word2Vec.execute
    {[ "params.unknown-word-policy" := PStr "ignore";
       "params.window" := PInt 5 ]}
    {[ "a" := [1%float; 2%float] ]} [["a"; "zz"]; ["a"]] []
  = Word2Vec.execute {[ "params.unknown-word-policy" := PStr "ignore" ]}
      {[ "a" := [1%float; 2%float] ]} [["a"; "zz"]; ["a"]] [].
Proof.
  apply (word2vec_reads_two_keys
           {[ "params.unknown-word-policy" := PStr "ignore" ]}
           {[ "params.unknown-word-policy" := PStr "ignore";
              "params.window" := PInt 5 ]}
           {[ "a" := [1%float; 2%float] ]} [["a"; "zz"]; ["a"]]);
    reflexivity.
Defined.
